(** * task-manager-ts: the task service and its JSON file store

    A shallow embedding of [src/services/TaskService.ts], [src/utils/fileUtils.ts]
    and [src/types/Task.ts], and the properties of the specification that are
    checked against it.

    Conventions.
    - A JavaScript string is the list of its UTF-16 code units.
    - An optional property [p?: T] that the program only reads is an
      [option T]; [None] is what reading it gives when the property is absent or
      holds [undefined].  The properties of [updateData], which [updateTask]
      copies with a spread, are [Property T]: there it matters whether the
      object has the property at all.
    - A [Date] is its time value: milliseconds since the epoch, or NaN.
    - The process state (the [taskService] singleton, the data directory, the
      clock, the random source, and what the JavaScript engine does where the
      standard leaves it the choice) is one record, [World]; a function of the
      program is a state transformer that either completes normally or throws. *)

From Stdlib Require Import ZArith NArith Lia Bool String Ascii Sorted.
From stdpp Require Import base option list gmap.

Local Open Scope Z_scope.

(** ** JavaScript strings *)

Abbreviation JsString := (list N).

Definition js (s : string) : JsString :=
  List.map N_of_ascii (list_ascii_of_string s).

(** [WhiteSpace] and [LineTerminator] code points of ECMAScript, the ones
    [String.prototype.trim] strips. *)
Definition isWhiteSpace (c : N) : bool :=
  ((9 <=? c) && (c <=? 13) || (c =? 32) || (c =? 160) || (c =? 5760)
   || (8192 <=? c) && (c <=? 8202) || (c =? 8232) || (c =? 8233)
   || (c =? 8239) || (c =? 8287) || (c =? 12288) || (c =? 65279))%N.

Fixpoint trimStart (s : JsString) : JsString :=
  match s with
  | c :: r => if isWhiteSpace c then trimStart r else s
  | [] => []
  end.

Definition trimEnd (s : JsString) : JsString := rev (trimStart (rev s)).

Definition trim (s : JsString) : JsString := trimEnd (trimStart s).

(** Truthiness of a string: the empty string is the only falsy one. *)
Definition truthy (s : JsString) : bool :=
  match s with [] => false | _ => true end.

(** [s.substring(a, b)] for [0 <= a <= b]. *)
Definition substring (a b : nat) (s : JsString) : JsString :=
  take (b - a) (drop a s).

(** [Number.prototype.toString(radix)] on an integer: digits [0-9a-z]. *)
Definition digitChar (d : N) : N :=
  (if d <? 10 then 48 + d else 87 + d)%N.

Fixpoint digitsOf (fuel : nat) (radix n : N) (acc : JsString) : JsString :=
  match fuel with
  | O => acc
  | S fuel' =>
      let acc' := digitChar (n mod radix) :: acc in
      if (n / radix =? 0)%N then acc' else digitsOf fuel' radix (n / radix) acc'
  end.

Definition natToString (radix n : N) : JsString :=
  digitsOf (S (N.size_nat n)) radix n [].

Definition intToString (radix : N) (z : Z) : JsString :=
  if z <? 0 then 45%N :: natToString radix (Z.to_N (- z))
  else natToString radix (Z.to_N z).

(** ** src/types/Task.ts *)

Inductive TaskStatus := TODO | IN_PROGRESS | COMPLETED.

Definition TaskStatus_value (s : TaskStatus) : JsString :=
  match s with
  | TODO => js "todo"
  | IN_PROGRESS => js "in_progress"
  | COMPLETED => js "completed"
  end.

Definition TaskStatus_eqb (a b : TaskStatus) : bool :=
  match a, b with
  | TODO, TODO | IN_PROGRESS, IN_PROGRESS | COMPLETED, COMPLETED => true
  | _, _ => false
  end.

(** [v == s] for the status [v] a task object holds, which may be
    [undefined], and a status [s]. *)
Definition statusIs (s : TaskStatus) (v : option TaskStatus) : bool :=
  match v with
  | Some s' => TaskStatus_eqb s' s
  | None => false
  end.

(** A property of an object whose properties are copied by a spread
    ([...updateData]): the object lacks it, or has it, holding [undefined]
    ([None]) or a value.  Reading [o.p] gives [undefined] when the property is
    absent and when it holds [undefined]; the spread copies the property
    whenever the object has it, whatever it holds. *)
Inductive Property (T : Type) :=
| Absent
| Holds (v : option T).
Arguments Absent {T}.
Arguments Holds {T}.

(** [o.p] *)
Definition read {T} (p : Property T) : option T :=
  match p with
  | Absent => None
  | Holds v => v
  end.

(** A [Date] object: a time value in milliseconds since the epoch, or NaN
    ("Invalid Date", what [new Date("nonsense")] builds). *)
Inductive Date := DateAt (t : Z) | InvalidDate.

(** Relational comparison of two dates goes through their time values; every
    comparison with NaN is false. *)
Definition Date_lt (a b : Date) : bool :=
  match a, b with
  | DateAt x, DateAt y => x <? y
  | _, _ => false
  end.

Definition Date_gt (a b : Date) : bool := Date_lt b a.

(** A task object of the collection.  [status] is declared as required, but
    the spread in [updateTask] stores [undefined] there when [updateData] has a
    [status] property holding [undefined]: [None] is that task without a
    status. *)
Module Task.
Record t := mk {
  id : JsString;
  title : JsString;
  description : option JsString;
  status : option TaskStatus;
  createdAt : Date;
  updatedAt : Date;
  dueDate : option Date
}.
End Task.

Module CreateTaskInput.
Record t := mk {
  title : JsString;
  description : option JsString;
  dueDate : option Date
}.
End CreateTaskInput.

Module UpdateTaskInput.
Record t := mk {
  title : Property JsString;
  description : Property JsString;
  status : Property TaskStatus;
  dueDate : Property Date
}.
End UpdateTaskInput.

Module TaskFilterOptions.
Record t := mk {
  status : option TaskStatus;
  hasDescription : option bool;
  dueBefore : option Date;
  dueAfter : option Date
}.
End TaskFilterOptions.

Module ApiResponse.
Record t (T : Type) := mk {
  success : bool;
  message : JsString;
  data : option T;
  error : option JsString
}.
Arguments mk {T}.
Arguments success {T}.
Arguments message {T}.
Arguments data {T}.
Arguments error {T}.
End ApiResponse.

Module TaskStats.
Record t := mk {
  total : nat;
  todo : nat;
  inProgress : nat;
  completed : nat;
  overdue : nat
}.
End TaskStats.

(** ** ECMAScript time values (ECMA-262, "Date Objects")

    Only [Date.prototype.toISOString], [Date.prototype.toJSON] and the
    [Date] constructor are used by the program; they are written out here from
    the standard's definitions, on integers. *)

Definition code (a : ascii) : N := N_of_ascii a.
Definition quoteChar : N := 34.

Definition msPerDay : Z := 86400000.
Definition maxTimeValue : Z := 8640000000000000.

Definition Day (t : Z) : Z := t / msPerDay.
Definition TimeWithinDay (t : Z) : Z := t mod msPerDay.

Definition DayFromYear (y : Z) : Z :=
  365 * (y - 1970) + (y - 1969) / 4 - (y - 1901) / 100 + (y - 1601) / 400.

Definition InLeapYear (y : Z) : bool :=
  (y mod 4 =? 0) && (negb (y mod 100 =? 0) || (y mod 400 =? 0)).

Definition DaysInYear (y : Z) : Z := if InLeapYear y then 366 else 365.

(** The year of a day number: the estimate from the mean year length is off
    by at most one. *)
Definition YearFromDay (d : Z) : Z :=
  let y0 := 1970 + (400 * d) / 146097 in
  if d <? DayFromYear y0 then y0 - 1
  else if DayFromYear (y0 + 1) <=? d then y0 + 1
  else y0.

(** Day number within the year at which month [m] (0-based; 12 is the end of
    the year) starts. *)
Definition monthStart (leap : bool) (m : Z) : Z :=
  let L := if leap then 1 else 0 in
  match m with
  | 0 => 0
  | 1 => 31
  | 2 => 59 + L
  | 3 => 90 + L
  | 4 => 120 + L
  | 5 => 151 + L
  | 6 => 181 + L
  | 7 => 212 + L
  | 8 => 243 + L
  | 9 => 273 + L
  | 10 => 304 + L
  | 11 => 334 + L
  | _ => 365 + L
  end.

Definition MonthFromDay (leap : bool) (diy : Z) : Z :=
  if diy <? monthStart leap 1 then 0
  else if diy <? monthStart leap 2 then 1
  else if diy <? monthStart leap 3 then 2
  else if diy <? monthStart leap 4 then 3
  else if diy <? monthStart leap 5 then 4
  else if diy <? monthStart leap 6 then 5
  else if diy <? monthStart leap 7 then 6
  else if diy <? monthStart leap 8 then 7
  else if diy <? monthStart leap 9 then 8
  else if diy <? monthStart leap 10 then 9
  else if diy <? monthStart leap 11 then 10
  else 11.

Definition DateFromDay (leap : bool) (diy : Z) : Z :=
  diy - monthStart leap (MonthFromDay leap diy) + 1.

Definition DaysInMonth (leap : bool) (m : Z) : Z :=
  monthStart leap (m + 1) - monthStart leap m.

Definition MakeDay (year month date : Z) : Z :=
  DayFromYear year + monthStart (InLeapYear year) month + date - 1.

Definition MakeTime (hour min sec ms : Z) : Z :=
  hour * 3600000 + min * 60000 + sec * 1000 + ms.

Definition MakeDate (day time : Z) : Z := day * msPerDay + time.

Definition TimeClip (t : Z) : Date :=
  if (- maxTimeValue <=? t) && (t <=? maxTimeValue) then DateAt t else InvalidDate.

(** Fixed-width decimal fields. *)
Definition digit (d : Z) : N := Z.to_N (48 + d).

Definition dec2 (n : Z) : JsString := [digit (n / 10 mod 10); digit (n mod 10)].
Definition dec3 (n : Z) : JsString := digit (n / 100 mod 10) :: dec2 n.
Definition dec4 (n : Z) : JsString := digit (n / 1000 mod 10) :: dec3 n.
Definition dec6 (n : Z) : JsString :=
  digit (n / 100000 mod 10) :: digit (n / 10000 mod 10) :: dec4 n.

Definition isoYear (y : Z) : JsString :=
  if (0 <=? y) && (y <=? 9999) then dec4 y
  else (if y <? 0 then code "-" else code "+") :: dec6 (Z.abs y).

(** [new Date(t).toISOString()] for a time value [t]:
    [YYYY-MM-DDTHH:mm:ss.sssZ], the year as [+YYYYYY] or [-YYYYYY] outside
    0..9999. *)
Definition toISOString (t : Z) : JsString :=
  let d := Day t in
  let y := YearFromDay d in
  let leap := InLeapYear y in
  let diy := d - DayFromYear y in
  let tod := TimeWithinDay t in
  isoYear y ++ code "-" :: dec2 (MonthFromDay leap diy + 1)
    ++ code "-" :: dec2 (DateFromDay leap diy)
    ++ code "T" :: dec2 (tod / 3600000)
    ++ code ":" :: dec2 (tod / 60000 mod 60)
    ++ code ":" :: dec2 (tod / 1000 mod 60)
    ++ code "." :: dec3 (tod mod 1000)
    ++ [code "Z"].

Definition digitVal (c : N) : option Z :=
  if ((48 <=? c) && (c <=? 57))%N then Some (Z.of_N c - 48) else None.

Definition num2 (a b : N) : option Z :=
  x ← digitVal a; y ← digitVal b; Some (10 * x + y).
Definition num3 (a b c : N) : option Z :=
  x ← digitVal a; r ← num2 b c; Some (100 * x + r).
Definition num4 (a b c d : N) : option Z :=
  x ← digitVal a; r ← num3 b c d; Some (1000 * x + r).
Definition num6 (a b c d e f : N) : option Z :=
  x ← digitVal a; y ← digitVal b; r ← num4 c d e f;
  Some (100000 * x + 10000 * y + r).

(** What the standard leaves to the engine, where the program gets there:
    - [new Date(s)] for a string that is not in the complete UTC form of the
      Date Time String Format ("implementation-specific heuristics or
      implementation-specific date formats"): [parseOtherDate];
    - the order [Array.prototype.sort] gives an array when the comparison
      function is not a consistent comparator for its elements
      ("implementation-defined"): [sortOrder] ranks the positions of the array,
      given the results of the comparison function on every pair of elements,
      and the elements are put in the order of their ranks. *)
Record Engine := mkEngine {
  parseOtherDate : JsString -> Date;
  sortOrder : list (list (option Z)) -> list nat
}.

(** The part of the format after the year: [-MM-DDTHH:mm:ss.sssZ]. *)
Definition parseAfterYear (y : Z) (s : JsString) : Date :=
  match s with
  | [p1; mo1; mo2; p2; da1; da2; p3; h1; h2; p4; mi1; mi2; p5; s1; s2; p6;
     f1; f2; f3; p7] =>
      if ((p1 =? code "-") && (p2 =? code "-") && (p3 =? code "T")
          && (p4 =? code ":") && (p5 =? code ":") && (p6 =? code ".")
          && (p7 =? code "Z"))%N
      then
        match num2 mo1 mo2, num2 da1 da2, num2 h1 h2, num2 mi1 mi2,
              num2 s1 s2, num3 f1 f2 f3 with
        | Some mo, Some da, Some h, Some mi, Some sec, Some ms =>
            if (1 <=? mo) && (mo <=? 12) && (1 <=? da)
               && (da <=? DaysInMonth (InLeapYear y) (mo - 1))
               && (h <=? 23) && (mi <=? 59) && (sec <=? 59)
            then TimeClip (MakeDate (MakeDay y (mo - 1) da) (MakeTime h mi sec ms))
            else InvalidDate
        | _, _, _, _, _, _ => InvalidDate
        end
      else InvalidDate
  | _ => InvalidDate
  end.

(** The time value of a string in the complete UTC form of the Date Time
    String Format, [YYYY-MM-DDTHH:mm:ss.sssZ] with a year of four digits or a
    sign and six, every field in its range and the day one the month has:
    what [toISOString] writes.  [InvalidDate] stands for "not of that form". *)
Definition parseUTCDateTime (s : JsString) : Date :=
  match s with
  | c :: y1 :: y2 :: y3 :: r =>
      if ((c =? code "+") || (c =? code "-"))%N then
        match r with
        | y4 :: y5 :: y6 :: rest =>
            match num6 y1 y2 y3 y4 y5 y6 with
            | Some y =>
                if (c =? code "-")%N then
                  if y =? 0 then InvalidDate else parseAfterYear (- y) rest
                else parseAfterYear y rest
            | None => InvalidDate
            end
        | _ => InvalidDate
        end
      else
        match num4 c y1 y2 y3 with
        | Some y => parseAfterYear y r
        | None => InvalidDate
        end
  | _ => InvalidDate
  end.

(** [new Date(s)] for a string [s].  The standard fixes the time value of a
    string in the complete UTC form; every other string (the shorter forms,
    a time-zone offset, a day the month does not have, hour 24, free text) is
    the engine's to read. *)
Definition Date_parse (engine : Engine) (s : JsString) : Date :=
  match parseUTCDateTime s with
  | DateAt t => DateAt t
  | InvalidDate => parseOtherDate engine s
  end.

(** ** The process state *)

(** What [JSON.parse] finds under a date property of a stored task: nothing,
    [null] (what [JSON.stringify] writes for an invalid date), or a string.
    Other JSON values, which the program never writes there, are not
    represented. *)
Inductive JsonDate := JAbsent | JNull | JString (s : JsString).

Module StoredTask.
Record t := mk {
  id : JsString;
  title : JsString;
  description : option JsString;
  status : option TaskStatus;
  createdAt : JsonDate;
  updatedAt : JsonDate;
  dueDate : JsonDate
}.
End StoredTask.

(** The text of a file, by what [JSON.parse] makes of it: an array of task
    objects (the shape [loadTasks] casts to, and the only one [saveTasks]
    writes), or text that is no JSON or no array, on which [JSON.parse] or the
    [.map] call after it throws.  An array whose elements are not task
    objects is not represented. *)
Inductive FileContent :=
| JsonTasks (ts : list StoredTask.t)
| NotJsonArray.

(** A file of the data directory: its text, and whether the operating system
    lets the process write to it. *)
Record File := mkFile {
  content : FileContent;
  mayWrite : bool
}.

(** The data directory: whether it exists; the files in it by name (a new
    directory has none); whether the operating system lets the process make
    the directory and make new files in it ([writable]: overwriting a file that
    exists is a matter of that file, not of the directory); and whether it lets
    the process read the tasks file, the one file the program reads
    ([readable]). *)
Record Disk := mkDisk {
  dataDir : bool;
  files : gmap (list N) File;
  writable : bool;
  readable : bool
}.

(** The fields of the [taskService] singleton. *)
Record ServiceState := mkService {
  tasks : list Task.t;
  isLoaded : bool
}.

(** [clock] is the time value [new Date()] and [Date.now()] read during the
    call; [randomText] is what [Math.random().toString(36)] gives. *)
Record World := mkWorld {
  service : ServiceState;
  disk : Disk;
  clock : Z;
  randomText : JsString;
  engine : Engine
}.

Definition with_service (s : ServiceState) (w : World) : World :=
  mkWorld s (disk w) (clock w) (randomText w) (engine w).

Definition with_disk (d : Disk) (w : World) : World :=
  mkWorld (service w) d (clock w) (randomText w) (engine w).

(** A thrown value: an [Error] object with its message, or anything else. *)
Inductive Thrown := ErrorObject (message : JsString) | NotAnError.

Inductive Completion (A : Type) :=
| Normal (a : A)
| Throw (e : Thrown).
Arguments Normal {A}.
Arguments Throw {A}.

Definition M (A : Type) : Type := World -> Completion A * World.

#[global] Instance M_ret : MRet M := fun A a w => (Normal a, w).

#[global] Instance M_bind : MBind M := fun A B f m w =>
  match m w with
  | (Normal a, w') => f a w'
  | (Throw e, w') => (Throw e, w')
  end.

Definition throw {A} (e : Thrown) : M A := fun w => (Throw e, w).

(** [try { body } catch (error) { handler }] *)
Definition tryCatch {A} (body : M A) (handler : Thrown -> M A) : M A := fun w =>
  match body w with
  | (Normal a, w') => (Normal a, w')
  | (Throw e, w') => handler e w'
  end.

Definition getService : M ServiceState := fun w => (Normal (service w), w).
Definition putService (s : ServiceState) : M unit := fun w => (Normal tt, with_service s w).
Definition getDisk : M Disk := fun w => (Normal (disk w), w).
Definition putDisk (d : Disk) : M unit := fun w => (Normal tt, with_disk d w).
Definition getEngine : M Engine := fun w => (Normal (engine w), w).

(** [new Date()] *)
Definition new_Date : M Date := fun w => (Normal (DateAt (clock w)), w).
(** [Date.now()] *)
Definition Date_now : M Z := fun w => (Normal (clock w), w).
(** [Math.random().toString(36)] *)
Definition Math_random_toString36 : M JsString := fun w => (Normal (randomText w), w).

(** [error instanceof Error ? error.message : 'Unknown error'] *)
Definition errorText (e : Thrown) : JsString :=
  match e with
  | ErrorObject m => m
  | NotAnError => js "Unknown error"
  end.

(** *** The [fs] calls the program makes, on the data directory *)

Definition fs_existsSync_dir : M bool :=
  d ← getDisk; mret (dataDir d).

Definition fs_existsSync (name : JsString) : M bool :=
  d ← getDisk;
  mret (dataDir d && match files d !! name with Some _ => true | None => false end).

Definition fs_mkdirSync : M unit :=
  d ← getDisk;
  if writable d then putDisk (mkDisk true ∅ (writable d) (readable d))
  else throw (ErrorObject (js "EACCES: permission denied, mkdir")).

(** Opening [name] for writing and putting [text] there.  A file that exists
    is overwritten when the file itself may be written, whatever the
    directory allows; a file that does not exist is made when the directory
    allows it.  [mode] is the access the file is given when the call sets
    one; otherwise a file that exists keeps its own, and a new file is one the
    process may write. *)
Definition fs_store (name : JsString) (text : FileContent) (mode : option bool) : M unit :=
  d ← getDisk;
  if negb (dataDir d) then throw (ErrorObject (js "ENOENT: no such file or directory, open"))
  else
    match files d !! name with
    | Some f =>
        if mayWrite f then
          putDisk (mkDisk (dataDir d)
                     (<[name := mkFile text (default (mayWrite f) mode)]> (files d))
                     (writable d) (readable d))
        else throw (ErrorObject (js "EACCES: permission denied, open"))
    | None =>
        if writable d then
          putDisk (mkDisk (dataDir d)
                     (<[name := mkFile text (default true mode)]> (files d))
                     (writable d) (readable d))
        else throw (ErrorObject (js "EACCES: permission denied, open"))
    end.

(** [fs.writeFileSync(name, text)] and [fs.promises.writeFile(name, text)] *)
Definition fs_writeFile (name : JsString) (text : FileContent) : M unit :=
  fs_store name text None.

Definition fs_readFile (name : JsString) : M FileContent :=
  d ← getDisk;
  if negb (dataDir d) then throw (ErrorObject (js "ENOENT: no such file or directory, open"))
  else match files d !! name with
       | None => throw (ErrorObject (js "ENOENT: no such file or directory, open"))
       | Some f =>
           if readable d then mret (content f)
           else throw (ErrorObject (js "EACCES: permission denied, open"))
       end.

(** [fs.promises.copyFile(src, dest)]: the copy gets the text and the access
    mode of the source. *)
Definition fs_copyFile (src dest : JsString) : M unit :=
  d ← getDisk;
  c ← fs_readFile src;
  fs_store dest c (mayWrite <$> files d !! src).

(** *** JSON *)

(** [Date.prototype.toJSON]: the ISO string, or [null] for an invalid date. *)
Definition Date_toJSON (d : Date) : JsonDate :=
  match d with
  | DateAt t => JString (toISOString t)
  | InvalidDate => JNull
  end.

Definition stringifyTask (t : Task.t) : StoredTask.t :=
  StoredTask.mk (Task.id t) (Task.title t) (Task.description t) (Task.status t)
    (Date_toJSON (Task.createdAt t)) (Date_toJSON (Task.updatedAt t))
    (match Task.dueDate t with
     | Some d => Date_toJSON d
     | None => JAbsent
     end).

(** [JSON.stringify(tasks, null, 2)]: a property whose value is [undefined]
    is left out. *)
Definition JSON_stringify (ts : list Task.t) : FileContent :=
  JsonTasks (List.map stringifyTask ts).

Definition JSON_parse (c : FileContent) : M (list StoredTask.t) :=
  match c with
  | JsonTasks ts => mret ts
  | NotJsonArray => throw (ErrorObject (js "Unexpected token in JSON"))
  end.

(** [new Date(v)] for a parsed JSON value: [undefined] gives NaN, [null]
    converts to the number 0, a string is parsed. *)
Definition new_Date_of (engine : Engine) (v : JsonDate) : Date :=
  match v with
  | JAbsent => InvalidDate
  | JNull => DateAt 0
  | JString s => Date_parse engine s
  end.

Definition JsonDate_truthy (v : JsonDate) : bool :=
  match v with
  | JString s => truthy s
  | _ => false
  end.

(** [d.toISOString()]: a [RangeError] on an invalid date. *)
Definition Date_toISOString (d : Date) : M JsString :=
  match d with
  | DateAt t => mret (toISOString t)
  | InvalidDate => throw (ErrorObject (js "Invalid time value"))
  end.

(** ** src/utils/fileUtils.ts

    [console.error] and [console.log] are not modelled. *)

Definition TASKS_FILE : JsString := js "tasks.json".

Definition ensureDataDirectory : M unit :=
  e ← fs_existsSync_dir;
  if negb e then fs_mkdirSync else mret tt.

Definition ensureTasksFile : M unit :=
  ensureDataDirectory;;
  e ← fs_existsSync TASKS_FILE;
  if negb e then fs_writeFile TASKS_FILE (JsonTasks []) else mret tt.

(** The callback of [tasksData.map] in [loadTasks]. *)
Definition hydrateTask (engine : Engine) (task : StoredTask.t) : Task.t :=
  Task.mk (StoredTask.id task) (StoredTask.title task)
    (StoredTask.description task) (StoredTask.status task)
    (new_Date_of engine (StoredTask.createdAt task))
    (new_Date_of engine (StoredTask.updatedAt task))
    (if JsonDate_truthy (StoredTask.dueDate task)
     then Some (new_Date_of engine (StoredTask.dueDate task))
     else None).

Definition loadTasks : M (list Task.t) :=
  tryCatch
    (ensureTasksFile;;
     data ← fs_readFile TASKS_FILE;
     tasksData ← JSON_parse data;
     engine ← getEngine;
     mret (List.map (hydrateTask engine) tasksData))
    (fun error => mret []).

Definition saveTasks (ts : list Task.t) : M bool :=
  tryCatch
    (ensureTasksFile;;
     let data := JSON_stringify ts in
     fs_writeFile TASKS_FILE data;;
     mret true)
    (fun error => mret false).

(** [s.replace(/[:.]/g, '-')] *)
Definition replaceColonDot (s : JsString) : JsString :=
  List.map (fun c => if ((c =? code ":") || (c =? code "."))%N then code "-" else c) s.

(** [backupTasks]: the file name is written between single quotes in the
    source, so it is the literal text below and [timestamp] is not used. *)
Definition backupTasks : M bool :=
  tryCatch
    (e ← fs_existsSync TASKS_FILE;
     if negb e then mret true
     else
       now ← new_Date;
       iso ← Date_toISOString now;
       let timestamp := replaceColonDot iso in
       let backupFile := js "tasks_backup_${timestamp}.json" in
       fs_copyFile TASKS_FILE backupFile;;
       mret true)
    (fun error => mret false).

(** ** Array methods *)

(** [arr.findIndex(p)]: the first index whose element satisfies [p], or -1. *)
Fixpoint findIndex {A} (p : A -> bool) (l : list A) : Z :=
  match l with
  | [] => -1
  | x :: r =>
      if p x then 0
      else let i := findIndex p r in if i =? -1 then -1 else i + 1
  end.

(** [arr.find(p)] *)
Definition find {A} (p : A -> bool) (l : list A) : option A := List.find p l.

(** [arr.splice(i, 1)] for [0 <= i]: the array without the element at [i]. *)
Definition splice1 {A} (i : Z) (l : list A) : list A :=
  take (Z.to_nat i) l ++ drop (S (Z.to_nat i)) l.

(** *** [arr.sort(compare)]

    A comparison function returns a number, [None] standing for NaN.  The
    standard fixes the result of [sort] when the function is a consistent
    comparator for the elements of the array: the elements in ascending
    order, elements that compare equal in the order they had.  Otherwise the
    order is implementation-defined, and the engine decides. *)

(** The requirements on [a], [b], [c] of a consistent comparator: the results
    are numbers and not NaN; [a] equals itself; equality is symmetric and
    transitive; "less" and "greater" are transitive. *)
Definition consistentAt {A} (compare : A -> A -> option Z) (a b c : A) : bool :=
  match compare a a, compare a b, compare b a, compare b c, compare a c with
  | Some aa, Some ab, Some ba, Some bc, Some ac =>
      (aa =? 0)
      && implb (ab =? 0) (ba =? 0)
      && implb ((ab =? 0) && (bc =? 0)) (ac =? 0)
      && implb ((ab <? 0) && (bc <? 0)) (ac <? 0)
      && implb ((0 <? ab) && (0 <? bc)) (0 <? ac)
  | _, _, _, _, _ => false
  end.

Definition consistentComparator {A} (compare : A -> A -> option Z) (l : list A) : bool :=
  forallb (fun a => forallb (fun b => forallb (consistentAt compare a b) l) l) l.

(** [insertSorted x l] puts [x] before the first element it does not have to
    follow (a comparison that is NaN counts as 0, as in the standard's
    SortCompare). *)
Fixpoint insertSorted {A} (compare : A -> A -> option Z) (x : A) (l : list A) : list A :=
  match l with
  | [] => [x]
  | y :: r =>
      match compare x y with
      | Some c => if 0 <? c then y :: insertSorted compare x r else x :: l
      | None => x :: l
      end
  end.

(** The stable sort: what every conforming [sort] returns for a consistent
    comparator. *)
Definition stableSort {A} (compare : A -> A -> option Z) (l : list A) : list A :=
  List.fold_right (insertSorted compare) [] l.

(** The results of the comparison function on every pair of elements. *)
Definition comparisons {A} (compare : A -> A -> option Z) (l : list A)
  : list (list (option Z)) :=
  List.map (fun x => List.map (compare x) l) l.

(** The elements of [l] in the order of the ranks given to their positions
    (a position without a rank has rank 0; equal ranks keep their order). *)
Definition inRankOrder {A} (ranks : list nat) (l : list A) : list A :=
  snd <$> stableSort (fun a b => Some (Z.of_nat (fst a) - Z.of_nat (fst b)))
            (zip (ranks ++ replicate (length l) 0%nat) l).

Definition sort {A} (engine : Engine) (compare : A -> A -> option Z) (l : list A)
  : list A :=
  if consistentComparator compare l then stableSort compare l
  else inRankOrder (sortOrder engine (comparisons compare l)) l.

(** [arr.filter(p)] for a predicate that runs in the process state. *)
Fixpoint filterM {A} (p : A -> M bool) (l : list A) : M (list A) :=
  match l with
  | [] => mret []
  | x :: r =>
      keep ← p x;
      rest ← filterM p r;
      mret (if (keep : bool) then x :: rest else rest)
  end.

(** [a.getTime() - b.getTime()]: NaN when one of them is invalid. *)
Definition getTime_minus (a b : Date) : option Z :=
  match a, b with
  | DateAt x, DateAt y => Some (x - y)
  | _, _ => None
  end.

(** ** src/services/TaskService.ts *)

Module TaskService.

Definition getTasks : M (list Task.t) :=
  s ← getService; mret (tasks s).

Definition setTasks (ts : list Task.t) : M unit :=
  s ← getService; putService (mkService ts (isLoaded s)).

Definition initialize : M unit :=
  s ← getService;
  if negb (isLoaded s) then
    loaded ← loadTasks;
    setTasks loaded;;
    s' ← getService;
    putService (mkService (tasks s') true)
  else mret tt.

Definition generateTaskId : M JsString :=
  now ← Date_now;
  let timestamp := intToString 36 now in
  r ← Math_random_toString36;
  let randomStr := substring 2 5 r in
  mret (js "task_" ++ timestamp ++ js "_" ++ randomStr).

Definition createTask (input : CreateTaskInput.t) : M (ApiResponse.t Task.t) :=
  tryCatch
    (initialize;;
     if negb (truthy (trim (CreateTaskInput.title input))) then
       mret (ApiResponse.mk false (js "Task title. cannot be empty") None
               (Some (js "INVALID_TITLE")))
     else
       id ← generateTaskId;
       now ← new_Date;
       let newTask :=
         Task.mk id (trim (CreateTaskInput.title input))
           (trim <$> CreateTaskInput.description input)
           (Some TODO) now now (CreateTaskInput.dueDate input) in
       ts ← getTasks;
       setTasks (ts ++ [newTask]);;
       ts' ← getTasks;
       saved ← saveTasks ts';
       if negb saved then throw (ErrorObject (js "Failed to save task"))
       else
         mret (ApiResponse.mk true (js "Successfully create task") (Some newTask) None))
    (fun error =>
       mret (ApiResponse.mk false (js "Error when creating task") None
               (Some (errorText error)))).

(** The predicate of [applyFilters], one [if (...) return false] after the
    other. *)
Definition passesFilters (filters : TaskFilterOptions.t) (task : Task.t) : bool :=
  if match TaskFilterOptions.status filters with
     | Some s => negb (statusIs s (Task.status task))
     | None => false
     end
  then false
  else if match TaskFilterOptions.hasDescription filters with
          | Some wanted =>
              let hasDesc :=
                match Task.description task with
                | Some d => truthy (trim d)
                | None => false
                end in
              negb (Bool.eqb hasDesc wanted)
          | None => false
          end
  then false
  else if match TaskFilterOptions.dueBefore filters, Task.dueDate task with
          | Some bound, Some due => Date_gt due bound
          | _, _ => false
          end
  then false
  else if match TaskFilterOptions.dueAfter filters, Task.dueDate task with
          | Some bound, Some due => Date_lt due bound
          | _, _ => false
          end
  then false
  else true.

Definition applyFilters (ts : list Task.t) (filters : TaskFilterOptions.t) : list Task.t :=
  List.filter (passesFilters filters) ts.

Definition getAllTasks (filterOptions : option TaskFilterOptions.t)
  : M (ApiResponse.t (list Task.t)) :=
  tryCatch
    (initialize;;
     ts ← getTasks;
     let filteredTasks :=
       match filterOptions with
       | Some filters => applyFilters ts filters
       | None => ts
       end in
     engine ← getEngine;
     let filteredTasks :=
       sort engine (fun a b => getTime_minus (Task.createdAt b) (Task.createdAt a))
         filteredTasks in
     mret (ApiResponse.mk true
             (js "Found " ++ natToString 10 (N.of_nat (length filteredTasks))
                ++ js " tasks")
             (Some filteredTasks) None))
    (fun error =>
       mret (ApiResponse.mk false (js "Error when getting all tasks") None
               (Some (errorText error)))).

Definition hasId (id : JsString) (t : Task.t) : bool :=
  bool_decide (Task.id t = id).

Definition getTaskById (id : JsString) : M (ApiResponse.t Task.t) :=
  tryCatch
    (initialize;;
     ts ← getTasks;
     match find (hasId id) ts with
     | None =>
         mret (ApiResponse.mk false (js "Cannot find specified task") None
                 (Some (js "TASK_NOT_FOUND")))
     | Some task =>
         mret (ApiResponse.mk true (js "Successfully got the task") (Some task) None)
     end)
    (fun error =>
       mret (ApiResponse.mk false (js "Error when getting task by ID") None
               (Some (errorText error)))).

(** [{...currentTask, ...updateData, title: ..., description: ..., updatedAt: now}]:
    [title] and [description] are set after the spreads, from what reading
    [updateData] gives, falling back to the current task; [status] and
    [dueDate] are what the second spread leaves there: the property of
    [updateData] when it has one, also when that holds [undefined], and the
    current task's otherwise. *)
Definition mergeUpdate (currentTask : Task.t) (updateData : UpdateTaskInput.t)
  (now : Date) : Task.t :=
  Task.mk (Task.id currentTask)
    (default (Task.title currentTask) (trim <$> read (UpdateTaskInput.title updateData)))
    (match read (UpdateTaskInput.description updateData) with
     | Some d => Some (trim d)
     | None => Task.description currentTask
     end)
    (match UpdateTaskInput.status updateData with
     | Holds v => v
     | Absent => Task.status currentTask
     end)
    (Task.createdAt currentTask)
    now
    (match UpdateTaskInput.dueDate updateData with
     | Holds v => v
     | Absent => Task.dueDate currentTask
     end).

Definition updateTask (id : JsString) (updateData : UpdateTaskInput.t)
  : M (ApiResponse.t Task.t) :=
  tryCatch
    (initialize;;
     ts ← getTasks;
     let taskIndex := findIndex (hasId id) ts in
     if taskIndex =? -1 then
       mret (ApiResponse.mk false (js "Cannot find specified task") None
               (Some (js "INVALID_TITLE")))
     else if match read (UpdateTaskInput.title updateData) with
             | Some t => negb (truthy (trim t))
             | None => false
             end
     then
       mret (ApiResponse.mk false (js "Task title cannot be empty") None
               (Some (js "INVALID_TITLE")))
     else
       match ts !! Z.to_nat taskIndex with
       | None => throw (ErrorObject (js "Cannot read properties of undefined"))
       | Some currentTask =>
           now ← new_Date;
           let updatedTask := mergeUpdate currentTask updateData now in
           setTasks (<[Z.to_nat taskIndex := updatedTask]> ts);;
           ts' ← getTasks;
           saved ← saveTasks ts';
           if negb saved then throw (ErrorObject (js "Failed to save task"))
           else
             mret (ApiResponse.mk true (js "Successfully udpate task")
                     (Some updatedTask) None)
       end)
    (fun error =>
       mret (ApiResponse.mk false (js "Error when updating task") None
               (Some (errorText error)))).

Definition deleteTask (id : JsString) : M (ApiResponse.t bool) :=
  tryCatch
    (initialize;;
     ts ← getTasks;
     let taskIndex := findIndex (hasId id) ts in
     if taskIndex =? -1 then
       mret (ApiResponse.mk false (js "Cannot find specified task") None
               (Some (js "TASK_NOT_FOUND")))
     else
       let deletedTask := ts !! Z.to_nat taskIndex in
       setTasks (splice1 taskIndex ts);;
       ts' ← getTasks;
       saved ← saveTasks ts';
       if negb saved then throw (ErrorObject (js "Failed to save task"))
       else
         match deletedTask with
         | None => throw (ErrorObject (js "Cannot read properties of undefined"))
         | Some t =>
             mret (ApiResponse.mk true
                     (js "Task " ++ quoteChar :: Task.title t ++ quoteChar :: js " has been deleted")
                     (Some true) None)
         end)
    (fun error =>
       mret (ApiResponse.mk false (js "Error when deleting task") None
               (Some (errorText error)))).

(** The property [name] of the service object, when it is a method taking
    [(id, updateData)]: the class declares one, [updateTask]. *)
Definition method (name : string)
  : option (JsString -> UpdateTaskInput.t -> M (ApiResponse.t Task.t)) :=
  if String.eqb name "updateTask" then Some updateTask else None.

(** [return this.udpateTask(id, { status })]: calling a property that is
    [undefined] throws a [TypeError]; no [try] surrounds the call. *)
Definition updateTaskStatus (id : JsString) (status : TaskStatus)
  : M (ApiResponse.t Task.t) :=
  match method "udpateTask" with
  | Some udpateTask =>
      udpateTask id (UpdateTaskInput.mk Absent Absent (Holds (Some status)) Absent)
  | None => throw (ErrorObject (js "this.udpateTask is not a function"))
  end.

Definition isTaskOverdue (task : Task.t) : M bool :=
  match Task.dueDate task with
  | None => mret false
  | Some due =>
      if statusIs COMPLETED (Task.status task) then mret false
      else now ← new_Date; mret (Date_lt due now)
  end.

Definition getTaskStats : M (ApiResponse.t TaskStats.t) :=
  tryCatch
    (initialize;;
     ts ← getTasks;
     let total := length ts in
     let todo := length (List.filter (fun t => statusIs TODO (Task.status t)) ts) in
     let inProgress :=
       length (List.filter (fun t => statusIs IN_PROGRESS (Task.status t)) ts) in
     let completed :=
       length (List.filter (fun t => statusIs COMPLETED (Task.status t)) ts) in
     overdueTasks ← filterM isTaskOverdue ts;
     let stats := TaskStats.mk total todo inProgress completed (length overdueTasks) in
     mret (ApiResponse.mk true (js "Successfully get task stats") (Some stats) None))
    (fun error =>
       mret (ApiResponse.mk false (js "Error when getting task stats") None
               (Some (errorText error)))).

End TaskService.

(** ** src/types/Task.ts: [isValidTaskStatus] *)

(** [Object.values(TaskStatus)] *)
Definition TaskStatus_values : list JsString :=
  TaskStatus_value <$> [TODO; IN_PROGRESS; COMPLETED].

(** [Object.values(TaskStatus).includes(status)] *)
Definition isValidTaskStatus (status : JsString) : bool :=
  bool_decide (status ∈ TaskStatus_values).

(** ** Vocabulary of the statements *)

(** The state in which an operation of the service runs its body: the state
    after its [await this.initialize()]. *)
Definition afterInitialize (w : World) : World := snd (TaskService.initialize w).

(** The entry of the tasks file in a data directory, and its text, when
    there is one. *)
Definition tasksEntry (d : Disk) : option File :=
  if dataDir d then files d !! TASKS_FILE else None.

Definition tasksFile (d : Disk) : option FileContent :=
  content <$> tasksEntry d.

(** The store takes a save: the tasks file is there and may be written, or it
    is not there and the directory lets the process make it. *)
Definition canSave (d : Disk) : bool :=
  match tasksEntry d with
  | Some f => mayWrite f
  | None => writable d
  end.

(** The data directory after a [saveTasks] that went through. *)
Definition diskAfterSave (ts : list Task.t) (d : Disk) : Disk :=
  mkDisk true
    (<[TASKS_FILE := mkFile (JSON_stringify ts) true]> (if dataDir d then files d else ∅))
    (writable d) (readable d).

(** The state at the [saveTasks] call of a mutating operation: the loaded
    state with the collection already replaced by [ts]. *)
Definition withTasks (ts : list Task.t) (w : World) : World :=
  with_service (mkService ts (isLoaded (service w))) w.

Definition with_clock (t : Z) (w : World) : World :=
  mkWorld (service w) (disk w) t (randomText w) (engine w).

(** Filters with a single criterion. *)
Definition statusOnly (s : option TaskStatus) : TaskFilterOptions.t :=
  TaskFilterOptions.mk s None None None.
Definition hasDescriptionOnly (b : option bool) : TaskFilterOptions.t :=
  TaskFilterOptions.mk None b None None.
Definition dueBeforeOnly (d : option Date) : TaskFilterOptions.t :=
  TaskFilterOptions.mk None None d None.
Definition dueAfterOnly (d : option Date) : TaskFilterOptions.t :=
  TaskFilterOptions.mk None None None d.

(** [a] is an instant strictly later than the instant [b]. *)
Definition laterThan (a b : Date) : Prop :=
  exists x y, a = DateAt x /\ b = DateAt y /\ y < x.

(** [counts P l n]: exactly [n] elements of [l] satisfy [P]. *)
Inductive counts {A} (P : A -> Prop) : list A -> nat -> Prop :=
| counts_nil : counts P [] 0
| counts_in x l n : P x -> counts P l n -> counts P (x :: l) (S n)
| counts_out x l n : ~ P x -> counts P l n -> counts P (x :: l) n.

(** What each criterion of a filter asks of a task, when the filter has the
    criterion. *)
Definition describedTask (task : Task.t) : Prop :=
  exists d, Task.description task = Some d /\ trim d <> [].

Definition meetsStatus (filters : TaskFilterOptions.t) (task : Task.t) : Prop :=
  forall s, TaskFilterOptions.status filters = Some s -> Task.status task = Some s.

Definition meetsHasDescription (filters : TaskFilterOptions.t) (task : Task.t) : Prop :=
  forall wanted,
    TaskFilterOptions.hasDescription filters = Some wanted ->
    (wanted = true <-> describedTask task).

Definition meetsDueBefore (filters : TaskFilterOptions.t) (task : Task.t) : Prop :=
  forall bound due,
    TaskFilterOptions.dueBefore filters = Some bound -> Task.dueDate task = Some due ->
    ~ laterThan due bound.

Definition meetsDueAfter (filters : TaskFilterOptions.t) (task : Task.t) : Prop :=
  forall bound due,
    TaskFilterOptions.dueAfter filters = Some bound -> Task.dueDate task = Some due ->
    ~ laterThan bound due.

(** A task is overdue at [now]: it has a due date strictly before [now] and
    is not completed. *)
Definition overdueAt (now : Z) (t : Task.t) : Prop :=
  exists due, Task.dueDate t = Some (DateAt due) /\ due < now
              /\ Task.status t <> Some COMPLETED.

(** What [isTaskOverdue] answers when the clock reads [now]. *)
Definition isTaskOverdueAt (now : Z) (task : Task.t) : bool :=
  match Task.dueDate task with
  | None => false
  | Some due =>
      if statusIs COMPLETED (Task.status task) then false
      else Date_lt due (DateAt now)
  end.

(** A time value of ECMAScript: at most 8.64e15 milliseconds from the epoch. *)
Definition validTime (t : Z) : Prop := - maxTimeValue <= t <= maxTimeValue.

(** A task all of whose dates are valid dates. *)
Definition validDates (t : Task.t) : Prop :=
  (exists c, Task.createdAt t = DateAt c /\ validTime c)
  /\ (exists u, Task.updatedAt t = DateAt u /\ validTime u)
  /\ (Task.dueDate t = None
      \/ exists d, Task.dueDate t = Some (DateAt d) /\ validTime d).

(** ** Sample data *)

Definition jan2024 : Z := 1704067200000.   (* 2024-01-01T00:00:00.000Z *)
Definition jul2024 : Z := 1719792000123.   (* 2024-07-01T00:00:00.123Z *)

Definition taskA : Task.t :=
  Task.mk (js "a") (js "Write report") None (Some TODO) (DateAt jan2024) (DateAt jan2024)
    None.
Definition taskB : Task.t :=
  Task.mk (js "b") (js "Review") (Some (js "second pass")) (Some IN_PROGRESS)
    (DateAt jan2024) (DateAt jan2024) (Some (DateAt jan2024)).
Definition taskC : Task.t :=
  Task.mk (js "c") (js "Archive") None (Some COMPLETED)
    (DateAt jan2024) (DateAt jan2024) (Some (DateAt jan2024)).

(** A second task under the id of [taskA]. *)
Definition taskA2 : Task.t :=
  Task.mk (js "a") (js "Write report again") None (Some TODO)
    (DateAt jul2024) (DateAt jul2024) None.

(** A task whose due date is an invalid date, as [new Date("soon")] is. *)
Definition taskD : Task.t :=
  Task.mk (js "d") (js "Call back") None (Some TODO) (DateAt jan2024) (DateAt jan2024)
    (Some InvalidDate).

(** An engine for the sample states: it reads no date format but the
    standard's complete one, and leaves an array in the order it has when the
    standard fixes none.  No statement about a sample state depends on that
    choice: their files hold the dates [toISOString] wrote, and the tasks that
    are sorted have valid creation dates. *)
Definition plainEngine : Engine :=
  mkEngine (fun _ => InvalidDate) (fun _ => []).

(** A data directory holding [tasks.json] with the given collection; the
    file and the directory can be written, or neither can. *)
Definition diskWith (ts : list Task.t) (canWrite : bool) : Disk :=
  mkDisk true {[ TASKS_FILE := mkFile (JSON_stringify ts) canWrite ]} canWrite true.

(** A loaded service over such a directory, in July 2024. *)
Definition loadedWorld (ts : list Task.t) (canWrite : bool) : World :=
  mkWorld (mkService ts true) (diskWith ts canWrite) jul2024 (js "0.4fzyo82mvyr")
    plainEngine.

(** A loaded service over a directory that cannot be written, holding a
    [tasks.json] that can. *)
Definition lockedDirectoryWorld (ts : list Task.t) : World :=
  mkWorld (mkService ts true)
    (mkDisk true {[ TASKS_FILE := mkFile (JSON_stringify ts) true ]} false true)
    jul2024 (js "0.4fzyo82mvyr") plainEngine.

(** ** Vocabulary of the further statements *)

(** The data directory after [ensureTasksFile] had to make the file. *)
Definition diskWithNewFile (d : Disk) : Disk :=
  mkDisk true
    (<[TASKS_FILE := mkFile (JsonTasks []) true]> (if dataDir d then files d else ∅))
    (writable d) (readable d).

(** What [loadTasks] makes of a tasks file it finds. *)
Definition tasksRead (engine : Engine) (c : FileContent) (canRead : bool) : list Task.t :=
  match c with
  | JsonTasks l => if canRead then List.map (hydrateTask engine) l else []
  | NotJsonArray => []
  end.

(** The name under which [backupTasks] writes its copy. *)
Definition BACKUP_FILE : JsString := js "tasks_backup_${timestamp}.json".

(** The id [generateTaskId] builds in a state, and the task [createTask]
    builds from an input there. *)
Definition generatedId (w : World) : JsString :=
  js "task_" ++ intToString 36 (clock w) ++ js "_" ++ substring 2 5 (randomText w).

Definition newTaskFor (input : CreateTaskInput.t) (w : World) : Task.t :=
  Task.mk (generatedId w) (trim (CreateTaskInput.title input))
    (trim <$> CreateTaskInput.description input) (Some TODO)
    (DateAt (clock w)) (DateAt (clock w)) (CreateTaskInput.dueDate input).

(** The state after a mutation of the collection to [ts] that was saved. *)
Definition savedWith (ts : list Task.t) (w : World) : World :=
  with_disk (diskAfterSave ts (disk w)) (withTasks ts w).

(** The responses of the service. *)
Definition failure {T} (message code : string) : ApiResponse.t T :=
  ApiResponse.mk false (js message) None (Some (js code)).

(** A response is a success with data and no error, or a failure with an
    error and no data. *)
Definition wellFormed {T} (r : ApiResponse.t T) : Prop :=
  (ApiResponse.success r = true /\ is_Some (ApiResponse.data r)
   /\ ApiResponse.error r = None)
  \/ (ApiResponse.success r = false /\ ApiResponse.data r = None
      /\ is_Some (ApiResponse.error r)).

(** [a] was created no earlier than [b]. *)
Definition notOlder (a b : Task.t) : Prop :=
  exists x y, Task.createdAt a = DateAt x /\ Task.createdAt b = DateAt y /\ y <= x.

Definition validCreatedAt (t : Task.t) : Prop :=
  exists x, Task.createdAt t = DateAt x.

(** A date as JavaScript has them: invalid, or a time value in range. *)
Definition jsDate (d : Date) : Prop :=
  match d with
  | DateAt t => validTime t
  | InvalidDate => True
  end.

Definition jsDates (t : Task.t) : Prop :=
  jsDate (Task.createdAt t) /\ jsDate (Task.updatedAt t)
  /\ match Task.dueDate t with Some d => jsDate d | None => True end.

(** What a task looks like after it went through the file: an invalid
    [createdAt] or [updatedAt] has become the epoch, an invalid [dueDate] is
    gone. *)
Definition epochIfInvalid (d : Date) : Date :=
  match d with
  | DateAt t => DateAt t
  | InvalidDate => DateAt 0
  end.

Definition throughFile (t : Task.t) : Task.t :=
  Task.mk (Task.id t) (Task.title t) (Task.description t) (Task.status t)
    (epochIfInvalid (Task.createdAt t)) (epochIfInvalid (Task.updatedAt t))
    (match Task.dueDate t with
     | Some (DateAt d) => Some (DateAt d)
     | _ => None
     end).

(** A data directory whose [tasks.json] is not a JSON array. *)
Definition corruptWorld : World :=
  mkWorld (mkService [] false)
    (mkDisk true {[ TASKS_FILE := mkFile NotJsonArray true ]} true true)
    jul2024 (js "0.4fzyo82mvyr") plainEngine.

(** A service not yet loaded, over a machine without data directory. *)
Definition freshWorld : World :=
  mkWorld (mkService [] false) (mkDisk false ∅ true true) jul2024 (js "0.4fzyo82mvyr")
    plainEngine.

(** What the interactive [update] command passes when every answer is left
    as it was: the three properties are there, each holding [undefined]. *)
Definition nothingChanged : UpdateTaskInput.t :=
  UpdateTaskInput.mk (Holds None) (Holds None) (Holds None) Absent.

(** ** Tactics *)

(** Run the file functions, and the service's state accesses, on a state given
    by its fields. *)
Ltac run_fs :=
  cbv [saveTasks loadTasks backupTasks ensureTasksFile ensureDataDirectory
       fs_existsSync_dir fs_existsSync fs_mkdirSync fs_store fs_writeFile fs_readFile
       fs_copyFile JSON_parse Date_toISOString tryCatch throw getDisk putDisk
       getEngine getService putService new_Date Date_now mbind mret M_bind M_ret
       with_disk with_service withTasks with_clock diskAfterSave disk service
       dataDir files writable readable clock randomText engine tasks isLoaded
       content mayWrite negb andb fst snd JSON_stringify default from_option id].

(** Run them through the lookups the context knows. *)
Ltac run_disk :=
  repeat (progress (run_fs;
                    repeat match goal with
                      | H : _ !! _ = _ |- _ => rewrite H
                      end;
                    rewrite ?lookup_insert_eq, ?lookup_empty, ?insert_insert_eq)).

Ltac run_service :=
  cbv [TaskService.getTasks TaskService.setTasks TaskService.generateTaskId
       Math_random_toString36 throw getDisk putDisk getEngine getService putService
       new_Date Date_now mbind mret M_bind M_ret with_disk with_service
       withTasks with_clock disk service dataDir files writable readable clock
       randomText engine tasks isLoaded fst snd].

Ltac run_service_in H :=
  cbv [TaskService.getTasks TaskService.setTasks TaskService.generateTaskId
       Math_random_toString36 throw getDisk putDisk getEngine getService putService
       new_Date Date_now mbind mret M_bind M_ret with_disk with_service
       withTasks with_clock disk service dataDir files writable readable clock
       randomText engine tasks isLoaded fst snd] in H.

(** Linear arithmetic with division and remainder by constants. *)
Ltac zdiv := Z.to_euclidean_division_equations; lia.

Ltac eval_monthStart :=
  repeat match goal with
    | |- context [monthStart ?l ?m] =>
        let v := eval vm_compute in (monthStart l m) in
        change (monthStart l m) with v
    end.

(** * Properties *)

(** ** The monad *)

Lemma bind_run {A B} (m : M A) (f : A -> M B) w a w' :
  m w = (Normal a, w') -> (m ≫= f) w = f a w'.
Proof. intros H. unfold mbind, M_bind. now rewrite H. Qed.

Lemma bind_throw {A B} (m : M A) (f : A -> M B) w e w' :
  m w = (Throw e, w') -> (m ≫= f) w = (Throw e, w').
Proof. intros H. unfold mbind, M_bind. now rewrite H. Qed.

Lemma tryCatch_normal {A} (body : M A) handler w a w' :
  body w = (Normal a, w') -> tryCatch body handler w = (Normal a, w').
Proof. intros H. unfold tryCatch. now rewrite H. Qed.

Lemma tryCatch_throw {A} (body : M A) handler w e w' :
  body w = (Throw e, w') -> tryCatch body handler w = handler e w'.
Proof. intros H. unfold tryCatch. now rewrite H. Qed.

(** ** fileUtils *)

(** [saveTasks] never throws; it returns [true] exactly when the store takes
    the save, and then the file holds the serialized collection; otherwise
    nothing has changed. *)
Lemma saveTasks_spec ts w :
  saveTasks ts w =
    (Normal (canSave (disk w)),
     if canSave (disk w) then with_disk (diskAfterSave ts (disk w)) w else w).
Proof.
  destruct w as [s [dd fs wr rd] c r e]. unfold canSave, tasksEntry.
  destruct dd; cbn [disk dataDir files writable].
  - destruct (fs !! TASKS_FILE) as [[ct mw]|] eqn:E.
    + destruct mw; run_disk; reflexivity.
    + destruct wr; run_disk; reflexivity.
  - destruct wr; run_disk; reflexivity.
Qed.

Lemma saveTasks_service ts w : service (snd (saveTasks ts w)) = service w.
Proof. rewrite saveTasks_spec. cbn [snd]. now destruct (canSave (disk w)). Qed.

(** [loadTasks] in closed form: a tasks file that is there is read and left
    alone; one that is not there is made, when the directory allows it. *)
Lemma loadTasks_closed w :
  loadTasks w =
    match tasksFile (disk w) with
    | Some c => (Normal (tasksRead (engine w) c (readable (disk w))), w)
    | None =>
        if writable (disk w)
        then (Normal [], with_disk (diskWithNewFile (disk w)) w)
        else (Normal [], w)
    end.
Proof.
  destruct w as [s [dd fs wr rd] c r e].
  unfold tasksFile, tasksEntry, tasksRead, diskWithNewFile.
  destruct dd; cbn [disk dataDir files writable readable engine].
  - destruct (fs !! TASKS_FILE) as [[[l|] mw]|] eqn:E;
      cbn [fmap option_fmap option_map content].
    + destruct rd; run_disk; reflexivity.
    + destruct rd; run_disk; reflexivity.
    + destruct wr, rd; run_disk; reflexivity.
  - cbn [fmap option_fmap option_map].
    destruct wr, rd; run_disk; reflexivity.
Qed.

Lemma tasksFile_diskAfterSave ts d :
  tasksFile (diskAfterSave ts d) = Some (JSON_stringify ts).
Proof.
  unfold tasksFile, tasksEntry, diskAfterSave. cbn [dataDir files].
  now rewrite lookup_insert_eq.
Qed.

Lemma tasksFile_diskWithNewFile d :
  tasksFile (diskWithNewFile d) = Some (JsonTasks []).
Proof.
  unfold tasksFile, tasksEntry, diskWithNewFile. cbn [dataDir files].
  now rewrite lookup_insert_eq.
Qed.

(** [loadTasks] never throws and touches nothing but the data directory. *)
Lemma loadTasks_normal w :
  exists ts d, loadTasks w = (Normal ts, with_disk d w).
Proof.
  rewrite loadTasks_closed. destruct w as [s d c r e].
  destruct (tasksFile _); [| destruct (writable _)]; eauto.
Qed.

(** What a second [loadTasks] reads is what the first one read. *)
Lemma loadTasks_again w :
  fst (loadTasks (snd (loadTasks w))) = fst (loadTasks w).
Proof.
  rewrite (loadTasks_closed w).
  destruct (tasksFile (disk w)) as [c|] eqn:E; cbn [fst snd].
  - now rewrite loadTasks_closed, E.
  - destruct (writable (disk w)) eqn:Hw; cbn [fst snd].
    + rewrite loadTasks_closed. cbn [disk with_disk].
      rewrite tasksFile_diskWithNewFile. cbn [fst tasksRead].
      now destruct (readable _).
    + now rewrite loadTasks_closed, E, Hw.
Qed.

Lemma loadTasks_service_irrelevant s w :
  fst (loadTasks (with_service s w)) = fst (loadTasks w).
Proof.
  rewrite !loadTasks_closed. cbn [disk with_service engine].
  destruct (tasksFile (disk w)); [| destruct (writable (disk w))]; reflexivity.
Qed.

(** [backupTasks] never throws.  Without a tasks file it does nothing and
    answers [true]; with one that can be copied it writes the copy under the
    name [tasks_backup_${timestamp}.json], those very characters; when the copy
    fails it answers [false]. *)
Lemma backupTasks_spec w :
  backupTasks w =
    match tasksEntry (disk w) with
    | None => (Normal true, w)
    | Some f =>
        if readable (disk w)
           && match files (disk w) !! js "tasks_backup_${timestamp}.json" with
              | Some old => mayWrite old
              | None => writable (disk w)
              end
        then
          (Normal true,
           with_disk (mkDisk true
                        (<[js "tasks_backup_${timestamp}.json" :=
                             mkFile (content f) (mayWrite f)]> (files (disk w)))
                        (writable (disk w)) (readable (disk w))) w)
        else (Normal false, w)
    end.
Proof.
  destruct w as [s [dd fs wr rd] c r e]. unfold tasksEntry.
  destruct dd; [| run_disk; reflexivity].
  cbn [disk dataDir files writable readable].
  destruct (fs !! TASKS_FILE) as [[ct mw]|] eqn:E; [| run_disk; reflexivity].
  destruct rd; [| run_disk; reflexivity].
  destruct (fs !! js "tasks_backup_${timestamp}.json") as [[ct' mw']|] eqn:E';
    [destruct mw' | destruct wr]; run_disk; reflexivity.
Qed.

(** ** Arrays *)

Lemma findIndex_ge {A} (p : A -> bool) l : -1 <= findIndex p l.
Proof.
  induction l as [|x l IH]; cbn; [lia |].
  destruct (p x); [lia |]. destruct (Z.eqb_spec (findIndex p l) (-1)); lia.
Qed.

Lemma findIndex_absent {A} (p : A -> bool) l :
  findIndex p l = -1 <-> List.Forall (fun x => p x = false) l.
Proof.
  induction l as [|x l IH]; cbn.
  - split; [constructor | reflexivity].
  - destruct (p x) eqn:Hp.
    + split; [discriminate |]. intros H. inversion H; congruence.
    + pose proof (findIndex_ge p l) as Hge.
      destruct (Z.eqb_spec (findIndex p l) (-1)) as [E|E]; split; intros H.
      * constructor; [assumption | now apply IH].
      * reflexivity.
      * lia.
      * apply List.Forall_inv_tail, IH in H. contradiction.
Qed.

(** When some element satisfies [p], [findIndex] is the position of the first
    one. *)
Lemma findIndex_split {A} (p : A -> bool) l :
  findIndex p l <> -1 ->
  exists l1 x l2,
    l = l1 ++ x :: l2 /\ List.Forall (fun y => p y = false) l1 /\ p x = true
    /\ findIndex p l = Z.of_nat (length l1).
Proof.
  induction l as [|y l IH]; cbn; [congruence |].
  destruct (p y) eqn:Hp.
  - intros _. exists [], y, l. repeat split; [constructor | assumption].
  - destruct (Z.eqb_spec (findIndex p l) (-1)) as [E|E]; [congruence |].
    intros _. destruct (IH E) as (l1 & x & l2 & -> & Hl1 & Hx & Hi).
    exists (y :: l1), x, l2. repeat split; [| assumption |].
    + constructor; assumption.
    + rewrite Hi. cbn [length]. lia.
Qed.

Lemma hasId_absent id (ts : list Task.t) :
  id ∉ Task.id <$> ts -> findIndex (TaskService.hasId id) ts = -1.
Proof.
  intros H. apply findIndex_absent, List.Forall_forall. intros t Ht.
  unfold TaskService.hasId. apply bool_decide_eq_false. intros <-.
  apply H, list_elem_of_fmap. exists t. split; [reflexivity |].
  now apply list_elem_of_In.
Qed.

Lemma find_absent {A} (p : A -> bool) l :
  List.Forall (fun x => p x = false) l -> find p l = None.
Proof.
  unfold find. induction 1 as [|x l Hx _ IH]; cbn; [reflexivity |].
  now rewrite Hx.
Qed.

(** ** The service: initialization *)

Lemma initialize_run w :
  TaskService.initialize w = (Normal tt, afterInitialize w).
Proof.
  unfold afterInitialize, TaskService.initialize.
  rewrite (bind_run getService _ w (service w) w eq_refl).
  destruct (isLoaded (service w)); cbn [negb]; [reflexivity |].
  destruct (loadTasks_normal w) as (ts & d & H).
  rewrite (bind_run _ _ _ _ _ H). reflexivity.
Qed.

Lemma afterInitialize_loaded w :
  isLoaded (service w) = true -> afterInitialize w = w.
Proof.
  intros H. unfold afterInitialize, TaskService.initialize.
  rewrite (bind_run getService _ w (service w) w eq_refl).
  now rewrite H.
Qed.

Lemma afterInitialize_unloaded w :
  isLoaded (service w) = false ->
  afterInitialize w =
    with_service (mkService (match fst (loadTasks w) with
                             | Normal ts => ts
                             | Throw _ => []
                             end) true)
      (snd (loadTasks w)).
Proof.
  intros H. unfold afterInitialize, TaskService.initialize.
  rewrite (bind_run getService _ w (service w) w eq_refl).
  rewrite H. cbn [negb].
  destruct (loadTasks_normal w) as (ts & d & Hl).
  rewrite (bind_run _ _ _ _ _ Hl), Hl. reflexivity.
Qed.

Lemma afterInitialize_isLoaded w : isLoaded (service (afterInitialize w)) = true.
Proof.
  destruct (isLoaded (service w)) eqn:H.
  - now rewrite afterInitialize_loaded.
  - now rewrite afterInitialize_unloaded.
Qed.

(** Initializing reads the stored collection and leaves it as it is. *)
Lemma afterInitialize_stored w :
  fst (loadTasks (afterInitialize w)) = fst (loadTasks w).
Proof.
  destruct (isLoaded (service w)) eqn:H.
  - now rewrite afterInitialize_loaded.
  - rewrite afterInitialize_unloaded by assumption.
    rewrite loadTasks_service_irrelevant. apply loadTasks_again.
Qed.

(** Whatever the body does, an operation wrapped in [try]/[catch] with a
    handler that returns a response completes normally. *)
Lemma tryCatch_returns {A} (body : M A) (handler : Thrown -> A) w :
  exists a w', tryCatch body (fun e => mret (handler e)) w = (Normal a, w').
Proof.
  unfold tryCatch. destruct (body w) as [[a|e] w']; eauto.
Qed.

(** ** The service: operations *)

(** C1.  [updateTask] on an id that is not in the collection returns a failure
    and leaves the state as initialization left it; the error code it carries
    is [INVALID_TITLE], where [getTaskById] and [deleteTask] carry
    [TASK_NOT_FOUND] for the same situation. *)
Theorem updateTask_unknown_id (id : JsString) (updateData : UpdateTaskInput.t) (w : World) :
  id ∉ Task.id <$> tasks (service (afterInitialize w)) ->
  TaskService.updateTask id updateData w =
    (Normal (ApiResponse.mk false (js "Cannot find specified task") None
               (Some (js "INVALID_TITLE"))),
     afterInitialize w).
Proof.
  intros H. unfold TaskService.updateTask. apply tryCatch_normal.
  rewrite (bind_run _ _ _ _ _ (initialize_run w)).
  rewrite (bind_run TaskService.getTasks _ _ _ _ eq_refl).
  cbv zeta. rewrite (hasId_absent _ _ H). reflexivity.
Qed.

Lemma updateTask_unknown_id_witness :
  (js "zzz" ∉ Task.id <$> tasks (service (afterInitialize (loadedWorld [taskA] true))))
  /\ TaskService.updateTask (js "zzz") (UpdateTaskInput.mk Absent Absent (Holds (Some COMPLETED)) Absent)
       (loadedWorld [taskA] true) =
     (Normal (ApiResponse.mk false (js "Cannot find specified task") None
                (Some (js "INVALID_TITLE"))),
      afterInitialize (loadedWorld [taskA] true)).
Proof.
  assert (H : js "zzz" ∉ Task.id <$> tasks (service (afterInitialize (loadedWorld [taskA] true)))).
  { apply (bool_decide_unpack _). vm_compute. exact I. }
  split; [exact H |].
  apply (updateTask_unknown_id _ _ _ H).
Defined.

(** The sibling operations report the missing id as [TASK_NOT_FOUND]. *)
Lemma getTaskById_unknown_id (id : JsString) (w : World) :
  id ∉ Task.id <$> tasks (service (afterInitialize w)) ->
  TaskService.getTaskById id w =
    (Normal (ApiResponse.mk false (js "Cannot find specified task") None
               (Some (js "TASK_NOT_FOUND"))),
     afterInitialize w).
Proof.
  intros H. unfold TaskService.getTaskById. apply tryCatch_normal.
  rewrite (bind_run _ _ _ _ _ (initialize_run w)).
  rewrite (bind_run TaskService.getTasks _ _ _ _ eq_refl).
  rewrite find_absent; [reflexivity |].
  apply findIndex_absent. now apply hasId_absent.
Qed.

Lemma deleteTask_unknown_id (id : JsString) (w : World) :
  id ∉ Task.id <$> tasks (service (afterInitialize w)) ->
  TaskService.deleteTask id w =
    (Normal (ApiResponse.mk false (js "Cannot find specified task") None
               (Some (js "TASK_NOT_FOUND"))),
     afterInitialize w).
Proof.
  intros H. unfold TaskService.deleteTask. apply tryCatch_normal.
  rewrite (bind_run _ _ _ _ _ (initialize_run w)).
  rewrite (bind_run TaskService.getTasks _ _ _ _ eq_refl).
  cbv zeta. rewrite (hasId_absent _ _ H). reflexivity.
Qed.

(** No fault escapes [updateTask]: it always completes with a response. *)
Lemma updateTask_returns id updateData w :
  exists r w', TaskService.updateTask id updateData w = (Normal r, w').
Proof. apply tryCatch_returns. Qed.

(** C2.  [updateTaskStatus] calls [this.udpateTask], a property the class
    does not have: for every id, status and state the call throws a
    [TypeError] out of [updateTaskStatus], which never reaches [updateTask];
    [updateTask] with only the status set completes with a response in the
    same state. *)
Theorem updateTaskStatus_throws (id : JsString) (status : TaskStatus) (w : World) :
  TaskService.updateTaskStatus id status w =
    (Throw (ErrorObject (js "this.udpateTask is not a function")), w)
  /\ exists r w',
       TaskService.updateTask id (UpdateTaskInput.mk Absent Absent (Holds (Some status)) Absent) w =
         (Normal r, w').
Proof. split; [reflexivity | apply updateTask_returns]. Qed.

(** At such an input: [updateTask] updates the task, [updateTaskStatus]
    throws. *)
Example updateTaskStatus_versus_updateTask :
  let w := loadedWorld [taskA] true in
  fst (TaskService.updateTask (js "a") (UpdateTaskInput.mk Absent Absent (Holds (Some COMPLETED)) Absent) w) =
    Normal (ApiResponse.mk true (js "Successfully udpate task")
              (Some (Task.mk (js "a") (js "Write report") None (Some COMPLETED)
                       (DateAt jan2024) (DateAt jul2024) None)) None)
  /\ fst (TaskService.updateTaskStatus (js "a") COMPLETED w) =
       Throw (ErrorObject (js "this.udpateTask is not a function")).
Proof. cbv zeta. split; vm_compute; reflexivity. Qed.

(** C7.  A title that trims to the empty string makes [createTask] fail with
    [INVALID_TITLE] in the state initialization left: nothing is appended and
    nothing is saved.  On a loaded service the whole state is unchanged, and
    in every case the stored collection reads back as before. *)
Theorem createTask_blank_title (input : CreateTaskInput.t) (w : World) :
  trim (CreateTaskInput.title input) = [] ->
  TaskService.createTask input w =
    (Normal (ApiResponse.mk false (js "Task title. cannot be empty") None
               (Some (js "INVALID_TITLE"))),
     afterInitialize w)
  /\ (isLoaded (service w) = true -> afterInitialize w = w)
  /\ fst (loadTasks (afterInitialize w)) = fst (loadTasks w).
Proof.
  intros H. split; [| split].
  - unfold TaskService.createTask. apply tryCatch_normal.
    rewrite (bind_run _ _ _ _ _ (initialize_run w)).
    rewrite H. reflexivity.
  - apply afterInitialize_loaded.
  - apply afterInitialize_stored.
Qed.

Lemma createTask_blank_title_witness :
  TaskService.createTask (CreateTaskInput.mk (js "   ") (Some (js "notes")) None)
    (loadedWorld [taskA] true) =
    (Normal (ApiResponse.mk false (js "Task title. cannot be empty") None
               (Some (js "INVALID_TITLE"))),
     loadedWorld [taskA] true).
Proof.
  destruct (createTask_blank_title
              (CreateTaskInput.mk (js "   ") (Some (js "notes")) None)
              (loadedWorld [taskA] true) eq_refl) as (Hr & Hw & _).
  rewrite Hr. rewrite (Hw eq_refl). reflexivity.
Defined.

(** C3.  What [backupTasks] writes does not depend on the clock: the copy goes
    to the file named [tasks_backup_${timestamp}.json], dollar sign and braces
    included, so the name carries no timestamp and every backup replaces the
    one before.  In July 2024 the file with the timestamp in its name is not
    there after a backup that answered [true]. *)
Theorem backupTasks_name_without_timestamp :
  (forall (w : World) (t : Z),
     fst (backupTasks (with_clock t w)) = fst (backupTasks w)
     /\ disk (snd (backupTasks (with_clock t w))) = disk (snd (backupTasks w)))
  /\ (let w := loadedWorld [taskA] true in
      let w' := snd (backupTasks w) in
      fst (backupTasks w) = Normal true
      /\ content <$> files (disk w') !! js "tasks_backup_${timestamp}.json"
         = Some (JSON_stringify [taskA])
      /\ files (disk w') !! js "tasks_backup_2024-07-01T00-00-00-123Z.json" = None
      /\ js "tasks_backup_" ++ replaceColonDot (toISOString (clock w)) ++ js ".json"
         = js "tasks_backup_2024-07-01T00-00-00-123Z.json").
Proof.
  split.
  - intros w t. rewrite !backupTasks_spec.
    destruct w as [s d c r e]. cbn [with_clock disk service randomText engine].
    destruct (tasksEntry d); [| split; reflexivity].
    destruct (readable d && _); split; reflexivity.
  - cbv zeta. rewrite backupTasks_spec. repeat split; vm_compute; reflexivity.
Qed.

(** The other two parts of the sentence hold: no file, no copy and [true];
    a copy that fails, [false] and nothing thrown. *)
Lemma backupTasks_no_file w :
  tasksFile (disk w) = None -> backupTasks w = (Normal true, w).
Proof.
  intros H. rewrite backupTasks_spec. unfold tasksFile in H.
  now destruct (tasksEntry (disk w)).
Qed.

Lemma backupTasks_returns w : exists b w', backupTasks w = (Normal b, w').
Proof. apply tryCatch_returns. Qed.

Lemma hasId_present id (ts : list Task.t) :
  id ∈ Task.id <$> ts ->
  exists l1 t l2,
    ts = l1 ++ t :: l2 /\ Task.id t = id
    /\ List.Forall (fun y => TaskService.hasId id y = false) l1
    /\ findIndex (TaskService.hasId id) ts = Z.of_nat (length l1).
Proof.
  intros H.
  destruct (findIndex_split (TaskService.hasId id) ts) as (l1 & t & l2 & E & Hl1 & Ht & Hi).
  - intros Habs. apply findIndex_absent in Habs.
    apply list_elem_of_fmap in H as (t & -> & Ht).
    apply list_elem_of_In in Ht.
    pose proof (proj1 (List.Forall_forall _ _) Habs t Ht) as Hf.
    unfold TaskService.hasId in Hf. now apply bool_decide_eq_false in Hf.
  - exists l1, t, l2. repeat split; try assumption.
    unfold TaskService.hasId in Ht. now apply bool_decide_eq_true in Ht.
Qed.

Lemma truthy_nonempty (s : JsString) : s <> [] -> truthy s = true.
Proof. now destruct s. Qed.

Lemma saveTasks_fails ts w :
  fst (saveTasks ts w) = Normal false -> saveTasks ts w = (Normal false, w).
Proof.
  rewrite saveTasks_spec. cbn [fst]. intros H.
  injection H as ->. reflexivity.
Qed.

Lemma createTask_save_failure (input : CreateTaskInput.t) (w : World) :
  trim (CreateTaskInput.title input) <> [] ->
  exists newTask,
    Task.title newTask = trim (CreateTaskInput.title input)
    /\ let ts' := tasks (service (afterInitialize w)) ++ [newTask] in
       (fst (saveTasks ts' (withTasks ts' (afterInitialize w))) = Normal false ->
        exists w',
          TaskService.createTask input w =
            (Normal (ApiResponse.mk false (js "Error when creating task") None
                       (Some (js "Failed to save task"))), w')
          /\ tasks (service w') = ts').
Proof.
  intros Htitle.
  destruct (afterInitialize w) as [[ts ld] d c r e] eqn:Hw1.
  eexists (Task.mk _ _ _ _ _ _ _). split; [reflexivity |].
  cbv zeta. intros Hsave. apply saveTasks_fails in Hsave.
  eexists. split.
  - unfold TaskService.createTask. eapply eq_trans.
    + apply tryCatch_throw.
      rewrite (bind_run _ _ _ _ _ (initialize_run w)), Hw1.
      rewrite (truthy_nonempty _ Htitle). cbn [negb].
      run_service. run_service_in Hsave. rewrite Hsave. reflexivity.
    + reflexivity.
  - reflexivity.
Qed.

Lemma updateTask_save_failure (id : JsString) (updateData : UpdateTaskInput.t) (w : World) :
  id ∈ Task.id <$> tasks (service (afterInitialize w)) ->
  (forall t, read (UpdateTaskInput.title updateData) = Some t -> trim t <> []) ->
  exists i currentTask,
    tasks (service (afterInitialize w)) !! i = Some currentTask
    /\ Task.id currentTask = id
    /\ let updatedTask :=
         TaskService.mergeUpdate currentTask updateData
           (DateAt (clock (afterInitialize w))) in
       let ts' := <[i := updatedTask]> (tasks (service (afterInitialize w))) in
       (fst (saveTasks ts' (withTasks ts' (afterInitialize w))) = Normal false ->
        exists w',
          TaskService.updateTask id updateData w =
            (Normal (ApiResponse.mk false (js "Error when updating task") None
                       (Some (js "Failed to save task"))), w')
          /\ tasks (service w') = ts').
Proof.
  intros Hin Htitle.
  destruct (afterInitialize w) as [[ts ld] d c r e] eqn:Hw1.
  cbn [service tasks clock] in *.
  destruct (hasId_present _ _ Hin) as (l1 & t & l2 & -> & Hid & Hl1 & Hi).
  exists (length l1), t. split; [apply list_lookup_middle; reflexivity |].
  split; [assumption |].
  cbv zeta. intros Hsave. apply saveTasks_fails in Hsave.
  eexists. split.
  - unfold TaskService.updateTask. eapply eq_trans.
    + apply tryCatch_throw.
      rewrite (bind_run _ _ _ _ _ (initialize_run w)), Hw1.
      rewrite (bind_run TaskService.getTasks _ _ _ _ eq_refl).
      cbn [service tasks]. cbv zeta. rewrite Hi.
      replace (Z.of_nat (length l1) =? -1) with false by (symmetry; apply Z.eqb_neq; lia).
      replace (match read (UpdateTaskInput.title updateData) with
               | Some t0 => negb (truthy (trim t0))
               | None => false
               end) with false.
      2:{ destruct (read (UpdateTaskInput.title updateData)) as [t0|] eqn:E; [| reflexivity].
          now rewrite (truthy_nonempty _ (Htitle t0 eq_refl)). }
      rewrite Nat2Z.id.
      rewrite (list_lookup_middle l1 l2 t (length l1) eq_refl).
      run_service. run_service_in Hsave. rewrite Hsave. reflexivity.
    + reflexivity.
  - reflexivity.
Qed.

Lemma deleteTask_save_failure (id : JsString) (w : World) :
  id ∈ Task.id <$> tasks (service (afterInitialize w)) ->
  exists i deletedTask,
    tasks (service (afterInitialize w)) !! i = Some deletedTask
    /\ Task.id deletedTask = id
    /\ let ts' := splice1 (Z.of_nat i) (tasks (service (afterInitialize w))) in
       (fst (saveTasks ts' (withTasks ts' (afterInitialize w))) = Normal false ->
        exists w',
          TaskService.deleteTask id w =
            (Normal (ApiResponse.mk false (js "Error when deleting task") None
                       (Some (js "Failed to save task"))), w')
          /\ tasks (service w') = ts').
Proof.
  intros Hin.
  destruct (afterInitialize w) as [[ts ld] d c r e] eqn:Hw1.
  cbn [service tasks clock] in *.
  destruct (hasId_present _ _ Hin) as (l1 & t & l2 & -> & Hid & Hl1 & Hi).
  exists (length l1), t. split; [apply list_lookup_middle; reflexivity |].
  split; [assumption |].
  cbv zeta. intros Hsave. apply saveTasks_fails in Hsave.
  eexists. split.
  - unfold TaskService.deleteTask. eapply eq_trans.
    + apply tryCatch_throw.
      rewrite (bind_run _ _ _ _ _ (initialize_run w)), Hw1.
      rewrite (bind_run TaskService.getTasks _ _ _ _ eq_refl).
      cbn [service tasks]. cbv zeta. rewrite Hi.
      replace (Z.of_nat (length l1) =? -1) with false by (symmetry; apply Z.eqb_neq; lia).
      run_service. run_service_in Hsave. rewrite Hsave. reflexivity.
    + reflexivity.
  - reflexivity.
Qed.

(** C4.  In [createTask], [updateTask] and [deleteTask] alike, when the
    [saveTasks] call returns [false] the operation answers with a failure whose
    error text is [Failed to save task], and the collection in memory is the
    changed one: the new task is still appended, the merged task is still in
    place, the deleted task is still gone. *)
Theorem save_failure_keeps_change (w : World) :
  (forall input : CreateTaskInput.t,
     trim (CreateTaskInput.title input) <> [] ->
     exists newTask,
       Task.title newTask = trim (CreateTaskInput.title input)
       /\ let ts' := tasks (service (afterInitialize w)) ++ [newTask] in
          (fst (saveTasks ts' (withTasks ts' (afterInitialize w))) = Normal false ->
           exists w',
             TaskService.createTask input w =
               (Normal (ApiResponse.mk false (js "Error when creating task") None
                          (Some (js "Failed to save task"))), w')
             /\ tasks (service w') = ts'))
  /\ (forall (id : JsString) (updateData : UpdateTaskInput.t),
        id ∈ Task.id <$> tasks (service (afterInitialize w)) ->
        (forall t, read (UpdateTaskInput.title updateData) = Some t -> trim t <> []) ->
        exists i currentTask,
          tasks (service (afterInitialize w)) !! i = Some currentTask
          /\ Task.id currentTask = id
          /\ let updatedTask :=
               TaskService.mergeUpdate currentTask updateData
                 (DateAt (clock (afterInitialize w))) in
             let ts' := <[i := updatedTask]> (tasks (service (afterInitialize w))) in
             (fst (saveTasks ts' (withTasks ts' (afterInitialize w))) = Normal false ->
              exists w',
                TaskService.updateTask id updateData w =
                  (Normal (ApiResponse.mk false (js "Error when updating task") None
                             (Some (js "Failed to save task"))), w')
                /\ tasks (service w') = ts'))
  /\ (forall id : JsString,
        id ∈ Task.id <$> tasks (service (afterInitialize w)) ->
        exists i deletedTask,
          tasks (service (afterInitialize w)) !! i = Some deletedTask
          /\ Task.id deletedTask = id
          /\ let ts' := splice1 (Z.of_nat i) (tasks (service (afterInitialize w))) in
             (fst (saveTasks ts' (withTasks ts' (afterInitialize w))) = Normal false ->
              exists w',
                TaskService.deleteTask id w =
                  (Normal (ApiResponse.mk false (js "Error when deleting task") None
                             (Some (js "Failed to save task"))), w')
                /\ tasks (service w') = ts')).
Proof.
  split; [| split].
  - intros input. apply createTask_save_failure.
  - intros id updateData. apply updateTask_save_failure.
  - intros id. apply deleteTask_save_failure.
Qed.

Lemma save_failure_keeps_change_witness :
  let w := loadedWorld [taskA] false in
  (exists w',
     TaskService.createTask (CreateTaskInput.mk (js "Buy milk") None None) w =
       (Normal (ApiResponse.mk false (js "Error when creating task") None
                  (Some (js "Failed to save task"))), w')
     /\ length (tasks (service w')) = 2%nat)
  /\ (exists w',
        TaskService.updateTask (js "a") (UpdateTaskInput.mk Absent Absent (Holds (Some COMPLETED)) Absent) w =
          (Normal (ApiResponse.mk false (js "Error when updating task") None
                     (Some (js "Failed to save task"))), w')
        /\ Task.status <$> tasks (service w') = [Some COMPLETED])
  /\ (exists w',
        TaskService.deleteTask (js "a") w =
          (Normal (ApiResponse.mk false (js "Error when deleting task") None
                     (Some (js "Failed to save task"))), w')
        /\ tasks (service w') = []).
Proof.
  cbv zeta.
  destruct (save_failure_keeps_change (loadedWorld [taskA] false)) as (Hc & Hu & Hd).
  pose proof (afterInitialize_loaded (loadedWorld [taskA] false) eq_refl) as Hw.
  assert (Hin : js "a" ∈ Task.id <$> tasks (service (afterInitialize (loadedWorld [taskA] false)))).
  { rewrite Hw. apply list_elem_of_here. }
  split; [| split].
  - destruct (Hc (CreateTaskInput.mk (js "Buy milk") None None)) as (newTask & _ & Hs).
    { vm_compute. discriminate. }
    cbv zeta in Hs. destruct Hs as (w' & Hr & Hts).
    { rewrite saveTasks_spec, Hw. reflexivity. }
    exists w'. split; [exact Hr |]. rewrite Hts, Hw. reflexivity.
  - destruct (Hu (js "a") (UpdateTaskInput.mk Absent Absent (Holds (Some COMPLETED)) Absent) Hin)
      as (i & currentTask & Hl & _ & Hs).
    { intros t Ht. discriminate Ht. }
    rewrite Hw in Hl. destruct i as [|i]; [| destruct i; discriminate Hl].
    injection Hl as <-.
    cbv zeta in Hs. destruct Hs as (w' & Hr & Hts).
    { rewrite saveTasks_spec, Hw. reflexivity. }
    exists w'. split; [exact Hr |]. rewrite Hts, Hw. reflexivity.
  - destruct (Hd (js "a") Hin) as (i & deletedTask & Hl & _ & Hs).
    rewrite Hw in Hl. destruct i as [|i]; [| destruct i; discriminate Hl].
    cbv zeta in Hs. destruct Hs as (w' & Hr & Hts).
    { rewrite saveTasks_spec, Hw. reflexivity. }
    exists w'. split; [exact Hr |]. rewrite Hts, Hw. reflexivity.
Defined.

(** ** Filtering *)

Lemma TaskStatus_eqb_eq a b : TaskStatus_eqb a b = true <-> a = b.
Proof. destruct a, b; cbn; split; congruence. Qed.

Lemma Date_lt_laterThan a b : Date_lt a b = true <-> laterThan b a.
Proof.
  unfold laterThan. destruct a as [x|], b as [y|]; cbn; split.
  - intros H. exists y, x. repeat split. now apply Z.ltb_lt.
  - intros (y' & x' & [= ->] & [= ->] & H). now apply Z.ltb_lt.
  - discriminate.
  - intros (? & ? & ? & ? & _); discriminate.
  - discriminate.
  - intros (? & ? & ? & ? & _); discriminate.
  - discriminate.
  - intros (? & ? & ? & ? & _); discriminate.
Qed.

Lemma statusIs_eq s v : statusIs s v = true <-> v = Some s.
Proof.
  destruct v as [s'|]; cbn; [| split; discriminate].
  rewrite TaskStatus_eqb_eq. split; congruence.
Qed.

Lemma insertSorted_perm {A} (compare : A -> A -> option Z) x l :
  insertSorted compare x l ≡ₚ x :: l.
Proof.
  induction l as [|y l IH]; cbn; [reflexivity |].
  destruct (compare x y) as [c|]; [| reflexivity].
  destruct (0 <? c); [| reflexivity].
  rewrite IH. apply Permutation_swap.
Qed.

Lemma stableSort_perm {A} (compare : A -> A -> option Z) l : stableSort compare l ≡ₚ l.
Proof.
  unfold stableSort. induction l as [|x l IH]; cbn; [reflexivity |].
  now rewrite insertSorted_perm, IH.
Qed.

Lemma inRankOrder_perm {A} (ranks : list nat) (l : list A) : inRankOrder ranks l ≡ₚ l.
Proof.
  unfold inRankOrder. rewrite stableSort_perm. rewrite snd_zip; [reflexivity |].
  rewrite length_app, length_replicate. lia.
Qed.

(** Whatever the comparison function and the engine, [sort] rearranges. *)
Lemma sort_perm {A} engine (compare : A -> A -> option Z) l : sort engine compare l ≡ₚ l.
Proof.
  unfold sort. destruct (consistentComparator compare l);
    [apply stableSort_perm | apply inRankOrder_perm].
Qed.

Lemma getAllTasks_run filterOptions w :
  TaskService.getAllTasks filterOptions w =
    (let found :=
       sort (engine (afterInitialize w))
         (fun a b => getTime_minus (Task.createdAt b) (Task.createdAt a))
         (match filterOptions with
          | Some filters =>
              TaskService.applyFilters (tasks (service (afterInitialize w))) filters
          | None => tasks (service (afterInitialize w))
          end) in
     (Normal (ApiResponse.mk true
                (js "Found " ++ natToString 10 (N.of_nat (length found)) ++ js " tasks")
                (Some found) None),
      afterInitialize w)).
Proof.
  unfold TaskService.getAllTasks. apply tryCatch_normal.
  rewrite (bind_run _ _ _ _ _ (initialize_run w)).
  rewrite (bind_run TaskService.getTasks _ _ _ _ eq_refl).
  reflexivity.
Qed.

(** A filter with one criterion lets a task pass exactly when the task meets
    the criterion. *)
Lemma passes_statusOnly s task :
  TaskService.passesFilters (statusOnly s) task = true <-> meetsStatus (statusOnly s) task.
Proof.
  unfold TaskService.passesFilters, meetsStatus. cbn.
  destruct s as [s|]; cbn.
  - destruct (statusIs s (Task.status task)) eqn:E; cbn.
    + apply statusIs_eq in E. split; [| reflexivity]. now intros _ s' [= <-].
    + split; [discriminate |]. intros H.
      specialize (H s eq_refl). apply statusIs_eq in H. congruence.
  - split; [| reflexivity]. intros _ s' [=].
Qed.

Lemma truthy_trim_described task :
  match Task.description task with
  | Some d => truthy (trim d)
  | None => false
  end = true <-> describedTask task.
Proof.
  unfold describedTask. destruct (Task.description task) as [d|].
  - destruct (trim d) eqn:E; cbn; split; try discriminate.
    + intros (d' & [= <-] & H). now rewrite E in H.
    + intros _. exists d. split; [reflexivity |]. now rewrite E.
    + reflexivity.
  - split; [discriminate | intros (d & [=] & _)].
Qed.

Lemma passes_hasDescriptionOnly b task :
  TaskService.passesFilters (hasDescriptionOnly b) task = true
  <-> meetsHasDescription (hasDescriptionOnly b) task.
Proof.
  unfold TaskService.passesFilters, meetsHasDescription. cbn.
  pose proof (truthy_trim_described task) as Hd.
  destruct b as [wanted|]; cbn.
  - destruct (match Task.description task with
              | Some d => truthy (trim d)
              | None => false
              end), wanted; cbn; split; try discriminate; try reflexivity.
    + intros _ w' [= <-]. split; [intros _; now apply Hd | reflexivity].
    + intros H. destruct (H false eq_refl) as [_ H']. discriminate H'. now apply Hd.
    + intros H. destruct (H true eq_refl) as [H' _]. apply Hd in H'; [discriminate | reflexivity].
    + intros _ w' [= <-]. split; [discriminate |]. intros H. now apply Hd in H.
  - split; [| reflexivity]. intros _ w' [=].
Qed.

Lemma passes_dueBeforeOnly b task :
  TaskService.passesFilters (dueBeforeOnly b) task = true
  <-> meetsDueBefore (dueBeforeOnly b) task.
Proof.
  unfold TaskService.passesFilters, meetsDueBefore. cbn.
  destruct b as [bound|], (Task.dueDate task) as [due|]; cbn;
    [| split; [intros _ ? ? _ [=] | reflexivity]
     | split; [intros _ ? ? [=] | reflexivity]
     | split; [intros _ ? ? [=] | reflexivity]].
  unfold Date_gt. pose proof (Date_lt_laterThan bound due) as Hl.
  destruct (Date_lt bound due); split; try discriminate; try reflexivity.
  - intros H. exfalso. apply (H bound due eq_refl eq_refl). now apply Hl.
  - intros _ ? ? [= <-] [= <-] H. apply Hl in H. discriminate.
Qed.

Lemma passes_dueAfterOnly b task :
  TaskService.passesFilters (dueAfterOnly b) task = true
  <-> meetsDueAfter (dueAfterOnly b) task.
Proof.
  unfold TaskService.passesFilters, meetsDueAfter. cbn.
  destruct b as [bound|], (Task.dueDate task) as [due|]; cbn;
    [| split; [intros _ ? ? _ [=] | reflexivity]
     | split; [intros _ ? ? [=] | reflexivity]
     | split; [intros _ ? ? [=] | reflexivity]].
  pose proof (Date_lt_laterThan due bound) as Hl.
  destruct (Date_lt due bound); split; try discriminate; try reflexivity.
  - intros H. exfalso. apply (H bound due eq_refl eq_refl). now apply Hl.
  - intros _ ? ? [= <-] [= <-] H. apply Hl in H. discriminate.
Qed.

Lemma passesFilters_split filters task :
  TaskService.passesFilters filters task =
    TaskService.passesFilters (statusOnly (TaskFilterOptions.status filters)) task
    && TaskService.passesFilters
         (hasDescriptionOnly (TaskFilterOptions.hasDescription filters)) task
    && TaskService.passesFilters (dueBeforeOnly (TaskFilterOptions.dueBefore filters)) task
    && TaskService.passesFilters (dueAfterOnly (TaskFilterOptions.dueAfter filters)) task.
Proof.
  destruct filters as [fs fd fb fa]. unfold TaskService.passesFilters. cbn.
  destruct (match fs with Some s => negb (statusIs s (Task.status task)) | None => false end);
    [reflexivity |].
  destruct (match fd with Some _ => _ | None => false end); [reflexivity |].
  destruct (match fb with Some _ => _ | None => _ end); [reflexivity |].
  destruct (match fa with Some _ => _ | None => _ end); reflexivity.
Qed.

(** C5.  A task passes a filter exactly when it meets every criterion the
    filter has: its status is the one asked for; it has a description that is
    not blank, or has none, as asked for; its due date, if it has one, is not
    strictly later than [dueBefore] and not strictly earlier than [dueAfter].
    So a task without a due date passes a [dueBefore] and a [dueAfter]
    criterion; a task with one fails [dueBefore] exactly when its due date is
    strictly later than the bound and fails [dueAfter] exactly when it is
    strictly earlier.  [getAllTasks] returns, in some order, the tasks of the
    collection that pass the filter. *)
Theorem applyFilters_criteria :
  (forall (filters : TaskFilterOptions.t) (task : Task.t),
     TaskService.passesFilters filters task = true
     <-> meetsStatus filters task /\ meetsHasDescription filters task
         /\ meetsDueBefore filters task /\ meetsDueAfter filters task)
  /\ (forall (bound : option Date) (task : Task.t),
        Task.dueDate task = None ->
        TaskService.passesFilters (dueBeforeOnly bound) task = true
        /\ TaskService.passesFilters (dueAfterOnly bound) task = true)
  /\ (forall (bound due : Date) (task : Task.t),
        Task.dueDate task = Some due ->
        (TaskService.passesFilters (dueBeforeOnly (Some bound)) task = false
         <-> laterThan due bound)
        /\ (TaskService.passesFilters (dueAfterOnly (Some bound)) task = false
            <-> laterThan bound due))
  /\ (forall (filters : TaskFilterOptions.t) (w : World),
        exists found message,
          TaskService.getAllTasks (Some filters) w =
            (Normal (ApiResponse.mk true message (Some found) None), afterInitialize w)
          /\ forall task,
               task ∈ found <->
               task ∈ tasks (service (afterInitialize w))
               /\ TaskService.passesFilters filters task = true).
Proof.
  split; [| split; [| split]].
  - intros filters task. rewrite passesFilters_split, !andb_true_iff.
    rewrite passes_statusOnly, passes_hasDescriptionOnly, passes_dueBeforeOnly,
      passes_dueAfterOnly.
    destruct filters as [fs fd fb fa]. unfold meetsStatus, meetsHasDescription,
      meetsDueBefore, meetsDueAfter. cbn. tauto.
  - intros bound task H. unfold TaskService.passesFilters. cbn. rewrite H.
    destruct bound; split; reflexivity.
  - intros bound due task H. unfold TaskService.passesFilters. cbn. rewrite H.
    unfold Date_gt. split.
    + rewrite <- Date_lt_laterThan. destruct (Date_lt bound due); split; congruence.
    + rewrite <- Date_lt_laterThan. destruct (Date_lt due bound); split; congruence.
  - intros filters w. rewrite getAllTasks_run. cbv zeta.
    eexists _, _. split; [reflexivity |].
    intros task. rewrite sort_perm. unfold TaskService.applyFilters.
    rewrite !list_elem_of_In. apply List.filter_In.
Qed.

Lemma applyFilters_criteria_witness :
  (TaskService.passesFilters (dueBeforeOnly (Some (DateAt 0))) taskA = true
   /\ TaskService.passesFilters (dueAfterOnly (Some (DateAt jul2024))) taskA = true)
  /\ TaskService.passesFilters (dueBeforeOnly (Some (DateAt 0))) taskB = false
  /\ TaskService.passesFilters (dueAfterOnly (Some (DateAt jul2024))) taskB = false.
Proof.
  destruct applyFilters_criteria as (_ & Hnone & Hsome & _).
  split; [split |].
  - apply (Hnone (Some (DateAt 0)) taskA eq_refl).
  - apply (Hnone (Some (DateAt jul2024)) taskA eq_refl).
  - split.
    + apply (proj1 (Hsome (DateAt 0) (DateAt jan2024) taskB eq_refl)).
      exists jan2024, 0. repeat split.
    + apply (proj2 (Hsome (DateAt jul2024) (DateAt jan2024) taskB eq_refl)).
      exists jul2024, jan2024. repeat split.
Defined.

(** The example of the specification: due dates 2024-01-01, 2024-06-01 and
    2024-12-01 against [dueBefore = 2024-07-01]. *)
Example dueBefore_july :
  Task.dueDate <$>
    TaskService.applyFilters
      [Task.mk (js "1") (js "x") None (Some TODO) (DateAt 0) (DateAt 0) (Some (DateAt 1704067200000));
       Task.mk (js "2") (js "y") None (Some TODO) (DateAt 0) (DateAt 0) (Some (DateAt 1717200000000));
       Task.mk (js "3") (js "z") None (Some TODO) (DateAt 0) (DateAt 0) (Some (DateAt 1733011200000))]
      (dueBeforeOnly (Some (DateAt 1719792000000)))
  = [Some (DateAt 1704067200000); Some (DateAt 1717200000000)].
Proof. reflexivity. Qed.

(** ** Statistics *)

Lemma filterM_isTaskOverdue ts w :
  filterM TaskService.isTaskOverdue ts w =
    (Normal (List.filter (isTaskOverdueAt (clock w)) ts), w).
Proof.
  induction ts as [|t ts IH]; [reflexivity |].
  cbn [filterM List.filter].
  assert (Ht : TaskService.isTaskOverdue t w = (Normal (isTaskOverdueAt (clock w) t), w)).
  { unfold TaskService.isTaskOverdue, isTaskOverdueAt.
    destruct (Task.dueDate t); [| reflexivity].
    destruct (statusIs COMPLETED (Task.status t)); reflexivity. }
  rewrite (bind_run _ _ _ _ _ Ht), (bind_run _ _ _ _ _ IH). reflexivity.
Qed.

Lemma getTaskStats_run w :
  TaskService.getTaskStats w =
    (let ts := tasks (service (afterInitialize w)) in
     (Normal (ApiResponse.mk true (js "Successfully get task stats")
                (Some (TaskStats.mk
                         (length ts)
                         (length (List.filter (fun t => statusIs TODO (Task.status t)) ts))
                         (length (List.filter (fun t => statusIs IN_PROGRESS (Task.status t)) ts))
                         (length (List.filter (fun t => statusIs COMPLETED (Task.status t)) ts))
                         (length (List.filter (isTaskOverdueAt (clock (afterInitialize w))) ts))))
                None),
      afterInitialize w)).
Proof.
  unfold TaskService.getTaskStats. apply tryCatch_normal.
  rewrite (bind_run _ _ _ _ _ (initialize_run w)).
  rewrite (bind_run TaskService.getTasks _ _ _ _ eq_refl).
  cbv zeta. rewrite (bind_run _ _ _ _ _ (filterM_isTaskOverdue _ _)).
  reflexivity.
Qed.

Lemma counts_filter {A} (P : A -> Prop) (p : A -> bool) l :
  (forall x, p x = true <-> P x) -> counts P l (length (List.filter p l)).
Proof.
  intros H. induction l as [|x l IH]; cbn; [constructor |].
  destruct (p x) eqn:E.
  - cbn. apply counts_in; [now apply H | assumption].
  - apply counts_out; [| assumption]. rewrite <- H. congruence.
Qed.

Lemma counts_unique {A} (P : A -> Prop) l n m :
  counts P l n -> counts P l m -> n = m.
Proof.
  intros Hn. revert m. induction Hn as [|x l n Hx _ IH|x l n Hx _ IH]; intros m Hm.
  - now inversion Hm.
  - inversion Hm; subst; [f_equal; auto | contradiction].
  - inversion Hm; subst; [contradiction | auto].
Qed.

Lemma isTaskOverdueAt_overdueAt now t :
  isTaskOverdueAt now t = true <-> overdueAt now t.
Proof.
  unfold isTaskOverdueAt, overdueAt.
  pose proof (statusIs_eq COMPLETED (Task.status t)) as Hs.
  destruct (Task.dueDate t) as [[due|]|]; cbn.
  - destruct (statusIs COMPLETED (Task.status t)); split.
    + discriminate.
    + intros (d & _ & _ & Hn). exfalso. apply Hn. now apply Hs.
    + intros H. exists due. repeat split; [now apply Z.ltb_lt |].
      intros Hc. apply Hs in Hc. discriminate.
    + intros (d & [= <-] & H & _). now apply Z.ltb_lt.
  - destruct (statusIs COMPLETED (Task.status t)); split;
      try discriminate; intros (d & [=] & _).
  - split; [discriminate | intros (d & [=] & _)].
Qed.

(** C6.  [getTaskStats] always answers with a success whose [total] is the
    number of tasks, whose [todo], [inProgress] and [completed] are the numbers
    of tasks with that status, and whose [overdue] is the number of tasks that
    have a due date strictly before the clock reading and are not completed;
    the state is the one initialization left. *)
Theorem getTaskStats_counts (w : World) :
  exists stats,
    TaskService.getTaskStats w =
      (Normal (ApiResponse.mk true (js "Successfully get task stats") (Some stats) None),
       afterInitialize w)
    /\ let ts := tasks (service (afterInitialize w)) in
       TaskStats.total stats = length ts
       /\ counts (fun t => Task.status t = Some TODO) ts (TaskStats.todo stats)
       /\ counts (fun t => Task.status t = Some IN_PROGRESS) ts (TaskStats.inProgress stats)
       /\ counts (fun t => Task.status t = Some COMPLETED) ts (TaskStats.completed stats)
       /\ counts (overdueAt (clock (afterInitialize w))) ts (TaskStats.overdue stats).
Proof.
  rewrite getTaskStats_run. cbv zeta. eexists. split; [reflexivity |].
  cbn [TaskStats.total TaskStats.todo TaskStats.inProgress TaskStats.completed
       TaskStats.overdue].
  split; [reflexivity |].
  repeat split; apply counts_filter; intros t;
    first [apply statusIs_eq | apply isTaskOverdueAt_overdueAt].
Qed.

(** The example of the specification: one task to do, one in progress and
    past its due date, one completed and past its due date. *)
Example getTaskStats_three_tasks :
  fst (TaskService.getTaskStats (loadedWorld [taskA; taskB; taskC] true))
  = Normal (ApiResponse.mk true (js "Successfully get task stats")
              (Some (TaskStats.mk 3 1 1 1 1)) None).
Proof. reflexivity. Qed.

(** The tasks of the three status values and the tasks without a status make
    up the collection. *)
Lemma status_partition (ts : list Task.t) :
  length ts =
    (length (List.filter (fun t => statusIs TODO (Task.status t)) ts)
     + length (List.filter (fun t => statusIs IN_PROGRESS (Task.status t)) ts)
     + length (List.filter (fun t => statusIs COMPLETED (Task.status t)) ts)
     + length (List.filter (fun t => bool_decide (Task.status t = None)) ts))%nat.
Proof.
  induction ts as [|t ts IH]; [reflexivity |].
  cbn [List.filter length]. destruct (Task.status t) as [[]|]; cbn; lia.
Qed.

(** C10.  In every state [getTaskStats] succeeds, and in its result [total]
    is the sum of [todo], [inProgress], [completed] and the number of tasks
    that have no status: the three add up to the total exactly when every task
    has a status.  [updateTask] takes the status away when [updateData] has a
    [status] property holding [undefined], which is what the interactive
    [update] command passes for a status left as it was: after that update of
    the only task of a collection, [getTaskStats] answers [total] 1 with
    [todo], [inProgress] and [completed] all 0. *)
Theorem getTaskStats_total_and_sum (w : World) :
  (exists stats missing,
     TaskService.getTaskStats w =
       (Normal (ApiResponse.mk true (js "Successfully get task stats") (Some stats) None),
        afterInitialize w)
     /\ counts (fun t => Task.status t = None) (tasks (service (afterInitialize w))) missing
     /\ TaskStats.total stats =
          (TaskStats.todo stats + TaskStats.inProgress stats + TaskStats.completed stats
           + missing)%nat)
  /\ (let w0 := loadedWorld [taskA] true in
      let w1 := snd (TaskService.updateTask (js "a") nothingChanged w0) in
      fst (TaskService.updateTask (js "a") nothingChanged w0) =
        Normal (ApiResponse.mk true (js "Successfully udpate task")
                  (Some (Task.mk (js "a") (js "Write report") None None
                           (DateAt jan2024) (DateAt jul2024) None)) None)
      /\ fst (TaskService.getTaskStats w1) =
           Normal (ApiResponse.mk true (js "Successfully get task stats")
                     (Some (TaskStats.mk 1 0 0 0 0)) None)).
Proof.
  split.
  - rewrite getTaskStats_run. cbv zeta. eexists _, _. split; [reflexivity |].
    split; [| apply status_partition].
    apply counts_filter. intros t. apply bool_decide_eq_true.
  - cbv zeta. split; vm_compute; reflexivity.
Qed.

(** ** Deleting *)

Lemma saveTasks_succeeds ts w :
  fst (saveTasks ts w) = Normal true ->
  saveTasks ts w = (Normal true, with_disk (diskAfterSave ts (disk w)) w).
Proof.
  rewrite saveTasks_spec. cbn [fst]. intros H.
  injection H as ->. reflexivity.
Qed.

Lemma filter_nil_Forall {A} (p : A -> bool) l :
  List.filter p l = [] -> List.Forall (fun x => p x = false) l.
Proof.
  induction l as [|x l IH]; cbn; [constructor |].
  destruct (p x) eqn:E; [discriminate |]. intros H. constructor; auto.
Qed.

Lemma Forall_filter_nil {A} (p : A -> bool) l :
  List.Forall (fun x => p x = false) l -> List.filter p l = [].
Proof.
  induction 1 as [|x l Hx _ IH]; cbn; [reflexivity |]. now rewrite Hx.
Qed.

Lemma hasId_eq id t : TaskService.hasId id t = true <-> Task.id t = id.
Proof. unfold TaskService.hasId. apply bool_decide_eq_true. Qed.

Lemma hasId_Forall_absent id (ts : list Task.t) :
  List.Forall (fun t => TaskService.hasId id t = false) ts -> id ∉ Task.id <$> ts.
Proof.
  intros H Hin. apply list_elem_of_fmap in Hin as (t & -> & Ht).
  apply list_elem_of_In in Ht.
  pose proof (proj1 (List.Forall_forall _ _) H t Ht) as Hf.
  unfold TaskService.hasId in Hf. now apply bool_decide_eq_false in Hf.
Qed.

(** An id that occurs once: the array is the tasks before it, the task, and
    the tasks after it, none of which has the id. *)
Lemma occurs_once_split id (ts : list Task.t) :
  counts (fun t => Task.id t = id) ts 1 ->
  exists l1 t l2,
    ts = l1 ++ t :: l2 /\ Task.id t = id
    /\ findIndex (TaskService.hasId id) ts = Z.of_nat (length l1)
    /\ id ∉ Task.id <$> (l1 ++ l2).
Proof.
  intros Hone.
  pose proof (counts_filter _ (TaskService.hasId id) ts (hasId_eq id)) as Hc.
  pose proof (counts_unique _ _ _ _ Hone Hc) as Hlen.
  destruct (findIndex_split (TaskService.hasId id) ts) as (l1 & t & l2 & -> & Hl1 & Ht & Hi).
  { intros Habs. apply findIndex_absent, Forall_filter_nil in Habs.
    rewrite Habs in Hlen. discriminate. }
  exists l1, t, l2. split; [reflexivity |]. split; [now apply hasId_eq |].
  split; [assumption |].
  apply hasId_Forall_absent, List.Forall_app. split; [assumption |].
  apply filter_nil_Forall.
  rewrite List.filter_app, (Forall_filter_nil _ _ Hl1) in Hlen.
  cbn in Hlen. rewrite Ht in Hlen. cbn in Hlen.
  destruct (List.filter (TaskService.hasId id) l2); [reflexivity | discriminate].
Qed.

Lemma splice1_middle {A} (l1 l2 : list A) x :
  splice1 (Z.of_nat (length l1)) (l1 ++ x :: l2) = l1 ++ l2.
Proof.
  unfold splice1. rewrite Nat2Z.id.
  rewrite take_app_length.
  replace (S (length l1)) with (length l1 + 1)%nat by lia.
  rewrite <- drop_drop, drop_app_length. reflexivity.
Qed.

(** C8, as the code has it.  For an id that occurs exactly once in the
    collection, when the [saveTasks] call returns [true]: [deleteTask] answers
    with success and [true], the collection is one shorter, and [getTaskById]
    for that id then fails with [TASK_NOT_FOUND]. *)
Theorem deleteTask_removes (id : JsString) (w : World) :
  let ts := tasks (service (afterInitialize w)) in
  let ts' := splice1 (findIndex (TaskService.hasId id) ts) ts in
  counts (fun t => Task.id t = id) ts 1 ->
  fst (saveTasks ts' (withTasks ts' (afterInitialize w))) = Normal true ->
  exists message w',
    TaskService.deleteTask id w =
      (Normal (ApiResponse.mk true message (Some true) None), w')
    /\ tasks (service w') = ts'
    /\ S (length (tasks (service w'))) = length ts
    /\ exists w'',
         TaskService.getTaskById id w' =
           (Normal (ApiResponse.mk false (js "Cannot find specified task") None
                      (Some (js "TASK_NOT_FOUND"))), w'').
Proof.
  cbv zeta. intros Hone Hsave.
  pose proof (afterInitialize_isLoaded w) as Hld.
  destruct (afterInitialize w) as [[ts ld] d c r e] eqn:Hw1.
  cbn [service tasks isLoaded] in *. subst ld.
  destruct (occurs_once_split _ _ Hone) as (l1 & t & l2 & -> & Hid & Hi & Hrest).
  rewrite Hi, splice1_middle in *.
  apply saveTasks_succeeds in Hsave.
  eexists _, _. split; [| split; [| split]].
  - unfold TaskService.deleteTask. apply tryCatch_normal.
    rewrite (bind_run _ _ _ _ _ (initialize_run w)), Hw1.
    rewrite (bind_run TaskService.getTasks _ _ _ _ eq_refl).
    cbn [service tasks]. cbv zeta. rewrite Hi, splice1_middle.
    replace (Z.of_nat (length l1) =? -1) with false by (symmetry; apply Z.eqb_neq; lia).
    rewrite Nat2Z.id, (list_lookup_middle l1 l2 t (length l1) eq_refl).
    run_service. run_service_in Hsave. rewrite Hsave. reflexivity.
  - reflexivity.
  - cbn [service tasks]. rewrite !length_app. cbn [length]. lia.
  - eexists. apply getTaskById_unknown_id.
    rewrite afterInitialize_loaded by reflexivity. exact Hrest.
Qed.

Lemma deleteTask_removes_witness :
  exists message w',
    TaskService.deleteTask (js "a") (loadedWorld [taskA; taskB] true) =
      (Normal (ApiResponse.mk true message (Some true) None), w')
    /\ tasks (service w') = [taskB]
    /\ exists w'',
         TaskService.getTaskById (js "a") w' =
           (Normal (ApiResponse.mk false (js "Cannot find specified task") None
                      (Some (js "TASK_NOT_FOUND"))), w'').
Proof.
  pose proof (afterInitialize_loaded (loadedWorld [taskA; taskB] true) eq_refl) as Hw.
  destruct (deleteTask_removes (js "a") (loadedWorld [taskA; taskB] true))
    as (message & w' & Hr & Hts & _ & Hget).
  - rewrite Hw. apply counts_in; [reflexivity |].
    apply counts_out; [discriminate |]. apply counts_nil.
  - rewrite saveTasks_spec, Hw. reflexivity.
  - exists message, w'. split; [exact Hr |]. split; [| exact Hget].
    rewrite Hts, Hw. reflexivity.
Defined.

(** C8 as stated fails where the tasks file cannot be written and where two
    tasks share the id: [deleteTask] on an id that is present answers with a
    failure, and [getTaskById] still finds a task under that id. *)
Lemma deleteTask_present_id_counterexample :
  let w := loadedWorld [taskA; taskA2] false in
  (js "a" ∈ Task.id <$> tasks (service w))
  /\ fst (TaskService.deleteTask (js "a") w) =
       Normal (ApiResponse.mk false (js "Error when deleting task") None
                 (Some (js "Failed to save task")))
  /\ fst (TaskService.getTaskById (js "a") (snd (TaskService.deleteTask (js "a") w))) =
       Normal (ApiResponse.mk true (js "Successfully got the task") (Some taskA2) None).
Proof.
  cbv zeta. split; [apply list_elem_of_here |]. split; vm_compute; reflexivity.
Qed.

(** ** Dates: [new Date(s)] reads back what [toISOString] writes *)

Lemma digitVal_digit d : 0 <= d <= 9 -> digitVal (digit d) = Some d.
Proof.
  intros H. unfold digitVal, digit.
  replace ((48 <=? Z.to_N (48 + d))%N && (Z.to_N (48 + d) <=? 57)%N) with true.
  - f_equal. lia.
  - symmetry. apply andb_true_iff. split; apply N.leb_le; lia.
Qed.

Lemma num2_dec2 n :
  0 <= n < 100 -> num2 (digit (n / 10 mod 10)) (digit (n mod 10)) = Some n.
Proof.
  intros H. unfold num2.
  rewrite !digitVal_digit by zdiv. cbn. f_equal. zdiv.
Qed.

Lemma num3_dec3 n :
  0 <= n < 1000 ->
  num3 (digit (n / 100 mod 10)) (digit (n / 10 mod 10)) (digit (n mod 10)) = Some n.
Proof.
  intros H. unfold num3, num2.
  rewrite !digitVal_digit by zdiv. cbn. f_equal. zdiv.
Qed.

Lemma num4_dec4 n :
  0 <= n < 10000 ->
  num4 (digit (n / 1000 mod 10)) (digit (n / 100 mod 10)) (digit (n / 10 mod 10))
    (digit (n mod 10)) = Some n.
Proof.
  intros H. unfold num4, num3, num2.
  rewrite !digitVal_digit by zdiv. cbn. f_equal. zdiv.
Qed.

Lemma num6_dec6 n :
  0 <= n < 1000000 ->
  num6 (digit (n / 100000 mod 10)) (digit (n / 10000 mod 10))
    (digit (n / 1000 mod 10)) (digit (n / 100 mod 10)) (digit (n / 10 mod 10))
    (digit (n mod 10)) = Some n.
Proof.
  intros H. unfold num6, num4, num3, num2.
  rewrite !digitVal_digit by zdiv. cbn. f_equal. zdiv.
Qed.

Lemma DayFromYear_succ y : DayFromYear (y + 1) = DayFromYear y + DaysInYear y.
Proof.
  unfold DayFromYear, DaysInYear, InLeapYear.
  destruct (Z.eqb_spec (y mod 4) 0), (Z.eqb_spec (y mod 100) 0),
    (Z.eqb_spec (y mod 400) 0); cbn [andb orb negb]; zdiv.
Qed.

Lemma YearFromDay_spec d :
  DayFromYear (YearFromDay d) <= d < DayFromYear (YearFromDay d + 1).
Proof.
  unfold YearFromDay. cbv zeta.
  set (y0 := 1970 + 400 * d / 146097).
  destruct (Z.ltb_spec d (DayFromYear y0)) as [Hlt|Hge].
  - replace (y0 - 1 + 1) with y0 by lia. split; [| assumption].
    unfold DayFromYear in *. subst y0. zdiv.
  - destruct (Z.leb_spec (DayFromYear (y0 + 1)) d) as [Hle|Hgt]; [| lia].
    split; [assumption |]. unfold DayFromYear in *. subst y0. zdiv.
Qed.

Lemma YearFromDay_range d :
  -100000000 <= d <= 100000000 -> -271821 <= YearFromDay d <= 275760.
Proof.
  intros H. pose proof (YearFromDay_spec d) as Hs.
  unfold DayFromYear in Hs. zdiv.
Qed.

Lemma month_of_day (leap : bool) (diy : Z) :
  0 <= diy < (if leap then 366 else 365) ->
  0 <= MonthFromDay leap diy <= 11
  /\ 1 <= DateFromDay leap diy <= DaysInMonth leap (MonthFromDay leap diy)
  /\ monthStart leap (MonthFromDay leap diy) + DateFromDay leap diy - 1 = diy.
Proof.
  intros H. unfold DateFromDay, DaysInMonth, MonthFromDay.
  destruct leap; cbn [monthStart];
    repeat match goal with
      | |- context [?a <? ?b] => destruct (Z.ltb_spec a b)
      end; eval_monthStart; lia.
Qed.

Lemma time_of_day_fields tod :
  0 <= tod < msPerDay ->
  0 <= tod / 3600000 <= 23 /\ 0 <= tod / 60000 mod 60 <= 59
  /\ 0 <= tod / 1000 mod 60 <= 59 /\ 0 <= tod mod 1000 <= 999
  /\ MakeTime (tod / 3600000) (tod / 60000 mod 60) (tod / 1000 mod 60) (tod mod 1000) = tod.
Proof. unfold msPerDay, MakeTime. intros H. zdiv. Qed.

(** The part after the year reads back. *)
Lemma parseAfterYear_fields y mo da h mi sec ms :
  1 <= mo <= 12 -> 1 <= da <= DaysInMonth (InLeapYear y) (mo - 1) ->
  0 <= h <= 23 -> 0 <= mi <= 59 -> 0 <= sec <= 59 -> 0 <= ms <= 999 ->
  parseAfterYear y
    (code "-" :: dec2 mo ++ code "-" :: dec2 da ++ code "T" :: dec2 h
       ++ code ":" :: dec2 mi ++ code ":" :: dec2 sec ++ code "." :: dec3 ms
       ++ [code "Z"])
  = TimeClip (MakeDate (MakeDay y (mo - 1) da) (MakeTime h mi sec ms)).
Proof.
  intros Hmo Hda Hh Hmi Hsec Hms.
  assert (Hda' : da <= 31).
  { revert Hda. unfold DaysInMonth.
    assert (mo - 1 = 0 \/ mo - 1 = 1 \/ mo - 1 = 2 \/ mo - 1 = 3 \/ mo - 1 = 4
            \/ mo - 1 = 5 \/ mo - 1 = 6 \/ mo - 1 = 7 \/ mo - 1 = 8 \/ mo - 1 = 9
            \/ mo - 1 = 10 \/ mo - 1 = 11) as Hcase by lia.
    destruct (InLeapYear y);
      repeat (destruct Hcase as [-> | Hcase]); try rewrite Hcase;
      eval_monthStart; lia. }
  unfold dec3, dec2. cbn [app parseAfterYear].
  change ((code "-" =? code "-")%N) with true.
  change ((code "T" =? code "T")%N) with true.
  change ((code ":" =? code ":")%N) with true.
  change ((code "." =? code ".")%N) with true.
  change ((code "Z" =? code "Z")%N) with true.
  cbn [andb].
  rewrite !num2_dec2, num3_dec3 by lia.
  replace ((1 <=? mo) && (mo <=? 12) && (1 <=? da)
           && (da <=? DaysInMonth (InLeapYear y) (mo - 1))
           && (h <=? 23) && (mi <=? 59) && (sec <=? 59)) with true; [reflexivity |].
  symmetry. rewrite !andb_true_iff, !Z.leb_le. lia.
Qed.

Lemma digit_not_sign d :
  0 <= d <= 9 -> ((digit d =? code "+") || (digit d =? code "-"))%N = false.
Proof.
  intros H. unfold digit. apply orb_false_iff.
  split; apply N.eqb_neq; change (code "+") with 43%N; change (code "-") with 45%N; lia.
Qed.

(** What [toISOString] writes is in the complete UTC form, and reads as
    the time value it was written from. *)
Lemma parseUTCDateTime_toISOString t :
  validTime t -> parseUTCDateTime (toISOString t) = DateAt t.
Proof.
  unfold validTime. intros Ht.
  assert (Hclip : TimeClip t = DateAt t).
  { unfold TimeClip.
    replace ((- maxTimeValue <=? t) && (t <=? maxTimeValue)) with true; [reflexivity |].
    symmetry. apply andb_true_iff. split; apply Z.leb_le; lia. }
  unfold maxTimeValue in Ht.
  unfold toISOString. cbv zeta.
  set (d := Day t). set (y := YearFromDay d).
  set (diy := d - DayFromYear y). set (tod := TimeWithinDay t).
  assert (Hd : -100000000 <= d <= 100000000) by (unfold d, Day, msPerDay; zdiv).
  assert (Htod : 0 <= tod < msPerDay) by (unfold tod, TimeWithinDay, msPerDay; zdiv).
  assert (Ht' : d * msPerDay + tod = t) by (unfold d, tod, Day, TimeWithinDay, msPerDay; zdiv).
  pose proof (YearFromDay_range d Hd) as Hy. fold y in Hy.
  pose proof (YearFromDay_spec d) as Hs. fold y in Hs.
  rewrite DayFromYear_succ in Hs. unfold DaysInYear in Hs.
  assert (Hdiy_eq : d = DayFromYear y + diy) by (unfold diy; lia).
  clearbody diy tod y d.
  assert (Hdiy : 0 <= diy < (if InLeapYear y then 366 else 365)).
  { destruct (InLeapYear y); lia. }
  destruct (month_of_day _ _ Hdiy) as (Hm & Hdate & Hsum).
  destruct (time_of_day_fields _ Htod) as (Hh & Hmi & Hsec & Hms & Htime).
  assert (Hparse :
    parseAfterYear y
      (code "-" :: dec2 (MonthFromDay (InLeapYear y) diy + 1)
         ++ code "-" :: dec2 (DateFromDay (InLeapYear y) diy)
         ++ code "T" :: dec2 (tod / 3600000)
         ++ code ":" :: dec2 (tod / 60000 mod 60)
         ++ code ":" :: dec2 (tod / 1000 mod 60)
         ++ code "." :: dec3 (tod mod 1000) ++ [code "Z"]) = DateAt t).
  { rewrite parseAfterYear_fields; try lia.
    - replace (MonthFromDay (InLeapYear y) diy + 1 - 1)
        with (MonthFromDay (InLeapYear y) diy) by lia.
      rewrite Htime. unfold MakeDate, MakeDay.
      replace (DayFromYear y + monthStart (InLeapYear y) (MonthFromDay (InLeapYear y) diy)
               + DateFromDay (InLeapYear y) diy - 1) with d by lia.
      rewrite Ht'. exact Hclip.
    - replace (MonthFromDay (InLeapYear y) diy + 1 - 1)
        with (MonthFromDay (InLeapYear y) diy) by lia.
      exact Hdate. }
  unfold isoYear.
  destruct ((0 <=? y) && (y <=? 9999)) eqn:Hrange.
  - apply andb_true_iff in Hrange as [H0 H9]. apply Z.leb_le in H0, H9.
    unfold dec4, dec3 at 1, dec2 at 1. cbn [app parseUTCDateTime].
    rewrite digit_not_sign by zdiv.
    rewrite num4_dec4 by lia. exact Hparse.
  - assert (Hout : y < 0 \/ 9999 < y).
    { apply andb_false_iff in Hrange as [H|H]; [apply Z.leb_gt in H | apply Z.leb_gt in H]; lia. }
    unfold dec6, dec4, dec3 at 1, dec2 at 1. cbn [app parseUTCDateTime].
    destruct (Z.ltb_spec y 0) as [Hneg|Hpos].
    + change ((code "-" =? code "+")%N || (code "-" =? code "-")%N) with true.
      cbn match. rewrite num6_dec6 by lia.
      change ((code "-" =? code "-")%N) with true. cbn match.
      replace (Z.abs y =? 0) with false by (symmetry; apply Z.eqb_neq; lia).
      replace (- Z.abs y) with y by lia. exact Hparse.
    + change ((code "+" =? code "+")%N || (code "+" =? code "-")%N) with true.
      cbn match. rewrite num6_dec6 by lia.
      change ((code "+" =? code "-")%N) with false. cbn match.
      replace (Z.abs y) with y by lia. exact Hparse.
Qed.

(** [new Date(d.toISOString())] has the time value of [d], in every engine. *)
Lemma Date_parse_toISOString engine t :
  validTime t -> Date_parse engine (toISOString t) = DateAt t.
Proof.
  intros H. unfold Date_parse. now rewrite parseUTCDateTime_toISOString.
Qed.

Lemma toISOString_truthy t : truthy (toISOString t) = true.
Proof. unfold toISOString. cbv zeta. now destruct (isoYear _). Qed.

(** ** Saving and loading *)

(** A task whose dates are valid comes back from its JSON form as it was. *)
Lemma hydrateTask_stringifyTask engine (t : Task.t) :
  validDates t -> hydrateTask engine (stringifyTask t) = t.
Proof.
  destruct t as [id title desc st ca ua due].
  intros ((c & Hc & Hvc) & (u & Hu & Hvu) & Hdue). cbn in Hc, Hu, Hdue. subst ca ua.
  unfold hydrateTask, stringifyTask.
  cbn [StoredTask.id StoredTask.title StoredTask.description StoredTask.status
       StoredTask.createdAt StoredTask.updatedAt StoredTask.dueDate
       Task.id Task.title Task.description Task.status Task.createdAt
       Task.updatedAt Task.dueDate Date_toJSON new_Date_of].
  rewrite (Date_parse_toISOString engine c Hvc), (Date_parse_toISOString engine u Hvu).
  destruct Hdue as [-> | (d & -> & Hvd)]; cbn [Date_toJSON JsonDate_truthy new_Date_of];
    [reflexivity |].
  now rewrite toISOString_truthy, (Date_parse_toISOString engine d Hvd).
Qed.

Lemma hydrate_stringify_all engine (ts : list Task.t) :
  List.Forall validDates ts ->
  List.map (hydrateTask engine) (List.map stringifyTask ts) = ts.
Proof.
  induction 1 as [|t ts Ht _ IH]; cbn [List.map]; [reflexivity |].
  rewrite hydrateTask_stringifyTask by assumption. now rewrite IH.
Qed.

(** What [loadTasks] returns after a [saveTasks] that went through, when the
    file can be read. *)
Lemma loadTasks_after_save ts w :
  readable (disk w) = true ->
  fst (loadTasks (with_disk (diskAfterSave ts (disk w)) w)) =
    Normal (List.map (hydrateTask (engine w)) (List.map stringifyTask ts)).
Proof.
  intros H. rewrite loadTasks_closed. cbn [disk with_disk engine].
  rewrite tasksFile_diskAfterSave. cbn [fst diskAfterSave readable].
  rewrite H. reflexivity.
Qed.

(** C9, as the code has it.  When every date of every task is a valid date,
    [saveTasks] returns [true] and the file can be read, [loadTasks] returns
    the tasks that were saved, field for field. *)
Theorem save_then_load (ts : list Task.t) (w : World) :
  List.Forall validDates ts ->
  fst (saveTasks ts w) = Normal true ->
  readable (disk w) = true ->
  fst (loadTasks (snd (saveTasks ts w))) = Normal ts.
Proof.
  intros Hvalid Hsave Hread.
  rewrite (saveTasks_succeeds _ _ Hsave). cbn [snd].
  rewrite loadTasks_after_save by assumption. f_equal.
  now apply hydrate_stringify_all.
Qed.

Lemma save_then_load_witness :
  fst (loadTasks (snd (saveTasks [taskA; taskB; taskC] (loadedWorld [] true))))
  = Normal [taskA; taskB; taskC].
Proof.
  apply save_then_load.
  - repeat constructor; unfold validDates, validTime;
      cbn [Task.createdAt Task.updatedAt Task.dueDate taskA taskB taskC];
      repeat split;
      first [ eexists; split; [reflexivity | split; vm_compute; discriminate]
            | left; reflexivity
            | right; eexists; split; [reflexivity | split; vm_compute; discriminate] ].
  - reflexivity.
  - reflexivity.
Defined.

(** C9 as stated fails on a task whose due date is an invalid date: it is
    written as [null] and comes back without a due date. *)
Lemma save_then_load_counterexample :
  let w := loadedWorld [] true in
  fst (saveTasks [taskD] w) = Normal true
  /\ fst (loadTasks (snd (saveTasks [taskD] w))) =
       Normal [Task.mk (js "d") (js "Call back") None (Some TODO) (DateAt jan2024)
                 (DateAt jan2024) None]
  /\ fst (loadTasks (snd (saveTasks [taskD] w))) <> Normal [taskD].
Proof.
  cbv zeta. split; [reflexivity |].
  assert (H : fst (loadTasks (snd (saveTasks [taskD] (loadedWorld [] true)))) =
              Normal [Task.mk (js "d") (js "Call back") None (Some TODO) (DateAt jan2024)
                        (DateAt jan2024) None]) by (vm_compute; reflexivity).
  split; [exact H |]. rewrite H. discriminate.
Qed.

(** Such a task is what [createTask] stores when it is handed an invalid
    date, as the [add] command does for [--due-date] text that is no date:
    the task in memory has the invalid due date, the task read back has
    none. *)
Example createTask_keeps_invalid_dueDate :
  let w := loadedWorld [] true in
  let w' := snd (TaskService.createTask
                   (CreateTaskInput.mk (js "Call back") None (Some InvalidDate)) w) in
  Task.dueDate <$> tasks (service w') = [Some InvalidDate]
  /\ exists loaded,
       fst (loadTasks w') = Normal loaded /\ Task.dueDate <$> loaded = [None].
Proof.
  cbv zeta. split; [vm_compute; reflexivity |].
  eexists. split; vm_compute; reflexivity.
Qed.

(** ** The embedding on concrete inputs *)

Example natToString_decimal : natToString 10 0 = js "0" /\ natToString 10 1234 = js "1234".
Proof. split; reflexivity. Qed.

Example intToString_base36 :
  intToString 36 35 = js "z" /\ intToString 36 36 = js "10"
  /\ intToString 36 jul2024 = js "ly27r43f".
Proof. repeat split; reflexivity. Qed.

Example trim_spaces : trim (js "  a b  ") = js "a b" /\ trim (js "   ") = [].
Proof. split; reflexivity. Qed.

(** [createTask] on a loaded, writable store: the task is appended, saved,
    and found again under the id it was given. *)
Example createTask_then_getTaskById :
  let w := loadedWorld [taskA] true in
  let input := CreateTaskInput.mk (js "  Buy milk ") (Some (js " 2 litres ")) None in
  let created :=
    Task.mk (js "task_ly27r43f_4fz") (js "Buy milk") (Some (js "2 litres")) (Some TODO)
      (DateAt jul2024) (DateAt jul2024) None in
  fst (TaskService.createTask input w) =
    Normal (ApiResponse.mk true (js "Successfully create task") (Some created) None)
  /\ tasks (service (snd (TaskService.createTask input w))) = [taskA; created]
  /\ fst (loadTasks (snd (TaskService.createTask input w))) = Normal [taskA; created]
  /\ fst (TaskService.getTaskById (js "task_ly27r43f_4fz")
            (snd (TaskService.createTask input w))) =
       Normal (ApiResponse.mk true (js "Successfully got the task") (Some created) None).
Proof. cbv zeta. repeat split; vm_compute; reflexivity. Qed.

(** [getAllTasks] without a filter: newest first. *)
Example getAllTasks_newest_first :
  fst (TaskService.getAllTasks None (loadedWorld [taskA; taskA2; taskB] true)) =
    Normal (ApiResponse.mk true (js "Found 3 tasks") (Some [taskA2; taskA; taskB]) None).
Proof. vm_compute. reflexivity. Qed.

(** [hasDescription = false] keeps the tasks with a blank or absent
    description. *)
Example hasDescription_false :
  Task.id <$>
    TaskService.applyFilters
      [taskA; taskB; Task.mk (js "e") (js "x") (Some (js "  ")) (Some TODO) (DateAt 0) (DateAt 0) None]
      (hasDescriptionOnly (Some false))
  = [js "a"; js "e"].
Proof. reflexivity. Qed.

Example iso_epoch : toISOString 0 = js "1970-01-01T00:00:00.000Z".
Proof. reflexivity. Qed.
Example iso_2024 : toISOString 1719792000123 = js "2024-07-01T00:00:00.123Z".
Proof. reflexivity. Qed.
Example iso_neg : toISOString (-62167219200001) = js "-000001-12-31T23:59:59.999Z".
Proof. reflexivity. Qed.
Example iso_max : toISOString 8640000000000000 = js "+275760-09-13T00:00:00.000Z".
Proof. reflexivity. Qed.
Example iso_min : toISOString (-8640000000000000) = js "-271821-04-20T00:00:00.000Z".
Proof. reflexivity. Qed.
Example parse_2024 engine :
  Date_parse engine (js "2024-02-29T12:34:56.789Z") = DateAt 1709210096789.
Proof. reflexivity. Qed.
Example parse_max engine :
  Date_parse engine (js "+275760-09-13T00:00:00.000Z") = DateAt 8640000000000000.
Proof. reflexivity. Qed.

(** A day the month does not have, a date without a time, a time-zone offset:
    the engine reads them. *)
Example parse_other engine :
  Date_parse engine (js "2023-02-29T12:34:56.789Z")
    = parseOtherDate engine (js "2023-02-29T12:34:56.789Z")
  /\ Date_parse engine (js "2024-12-31") = parseOtherDate engine (js "2024-12-31")
  /\ Date_parse engine (js "2024-12-31T10:00:00+08:00")
     = parseOtherDate engine (js "2024-12-31T10:00:00+08:00").
Proof. repeat split; reflexivity. Qed.

(** * Further properties *)

(** ** fileUtils, in closed form *)

Lemma ensureTasksFile_closed w :
  ensureTasksFile w =
    match tasksFile (disk w) with
    | Some _ => (Normal tt, w)
    | None =>
        if writable (disk w)
        then (Normal tt, with_disk (diskWithNewFile (disk w)) w)
        else (Throw (ErrorObject
                       (if dataDir (disk w)
                        then js "EACCES: permission denied, open"
                        else js "EACCES: permission denied, mkdir")), w)
    end.
Proof.
  destruct w as [s [dd fs wr rd] c r e]. unfold tasksFile, tasksEntry, diskWithNewFile.
  destruct dd; cbn [disk dataDir files writable].
  - destruct (fs !! TASKS_FILE) as [f|] eqn:E; cbn [fmap option_fmap option_map].
    + run_disk. reflexivity.
    + destruct wr; run_disk; reflexivity.
  - cbn [fmap option_fmap option_map]. destruct wr; run_disk; reflexivity.
Qed.

Lemma canSave_diskAfterSave ts d : canSave (diskAfterSave ts d) = true.
Proof.
  unfold canSave, tasksEntry, diskAfterSave. cbn [dataDir files].
  now rewrite lookup_insert_eq.
Qed.

Lemma canSave_diskWithNewFile d : canSave (diskWithNewFile d) = true.
Proof.
  unfold canSave, tasksEntry, diskWithNewFile. cbn [dataDir files].
  now rewrite lookup_insert_eq.
Qed.

Lemma tasksFile_None_canSave d : tasksFile d = None -> canSave d = writable d.
Proof.
  unfold tasksFile, canSave. now destruct (tasksEntry d).
Qed.

(** ** The service, in closed form *)

Lemma afterInitialize_closed w :
  afterInitialize w =
    if isLoaded (service w) then w
    else
      match tasksFile (disk w) with
      | Some c =>
          with_service (mkService (tasksRead (engine w) c (readable (disk w))) true) w
      | None =>
          with_service (mkService [] true)
            (if writable (disk w) then with_disk (diskWithNewFile (disk w)) w else w)
      end.
Proof.
  destruct (isLoaded (service w)) eqn:H.
  - now apply afterInitialize_loaded.
  - rewrite afterInitialize_unloaded by assumption. rewrite loadTasks_closed.
    destruct (tasksFile (disk w)); [reflexivity |].
    destruct (writable (disk w)); reflexivity.
Qed.

Lemma afterInitialize_clock w : clock (afterInitialize w) = clock w.
Proof.
  rewrite afterInitialize_closed.
  destruct (isLoaded (service w)), (tasksFile (disk w)), (writable (disk w)); reflexivity.
Qed.

Lemma afterInitialize_randomText w : randomText (afterInitialize w) = randomText w.
Proof.
  rewrite afterInitialize_closed.
  destruct (isLoaded (service w)), (tasksFile (disk w)), (writable (disk w)); reflexivity.
Qed.

Lemma afterInitialize_engine w : engine (afterInitialize w) = engine w.
Proof.
  rewrite afterInitialize_closed.
  destruct (isLoaded (service w)), (tasksFile (disk w)), (writable (disk w)); reflexivity.
Qed.

(** Initialization makes the tasks file only where a save would make it. *)
Lemma afterInitialize_canSave w :
  canSave (disk (afterInitialize w)) = canSave (disk w).
Proof.
  rewrite afterInitialize_closed.
  destruct (isLoaded (service w)); [reflexivity |].
  destruct (tasksFile (disk w)) eqn:E; [reflexivity |].
  rewrite (tasksFile_None_canSave _ E).
  destruct (writable (disk w)) eqn:Hw; cbn [disk with_service with_disk].
  - apply canSave_diskWithNewFile.
  - now rewrite (tasksFile_None_canSave _ E).
Qed.

Lemma createTask_closed input w :
  TaskService.createTask input w =
    (let w1 := afterInitialize w in
     if truthy (trim (CreateTaskInput.title input)) then
       let ts' := tasks (service w1) ++ [newTaskFor input w1] in
       if canSave (disk w1)
       then (Normal (ApiResponse.mk true (js "Successfully create task")
                       (Some (newTaskFor input w1)) None),
             savedWith ts' w1)
       else (Normal (failure "Error when creating task" "Failed to save task"),
             withTasks ts' w1)
     else (Normal (failure "Task title. cannot be empty" "INVALID_TITLE"), w1)).
Proof.
  cbv zeta. unfold TaskService.createTask.
  destruct (truthy (trim (CreateTaskInput.title input))) eqn:Ht.
  - destruct (afterInitialize w) as [[ts ld] [dd fs wr rd] c r e] eqn:Hw1.
    unfold tryCatch. rewrite (bind_run _ _ _ _ _ (initialize_run w)), Hw1.
    cbn [negb]. unfold newTaskFor, generatedId, savedWith. run_service.
    rewrite saveTasks_spec. run_service.
    destruct (canSave {| dataDir := dd; files := fs; writable := wr; readable := rd |});
      reflexivity.
  - apply tryCatch_normal.
    rewrite (bind_run _ _ _ _ _ (initialize_run w)). reflexivity.
Qed.

Lemma getTaskById_closed id w :
  TaskService.getTaskById id w =
    (Normal (match find (TaskService.hasId id) (tasks (service (afterInitialize w))) with
             | None => failure "Cannot find specified task" "TASK_NOT_FOUND"
             | Some task =>
                 ApiResponse.mk true (js "Successfully got the task") (Some task) None
             end),
     afterInitialize w).
Proof.
  unfold TaskService.getTaskById. apply tryCatch_normal.
  rewrite (bind_run _ _ _ _ _ (initialize_run w)).
  rewrite (bind_run TaskService.getTasks _ _ _ _ eq_refl).
  destruct (find _ _); reflexivity.
Qed.

Lemma updateTask_closed id updateData w :
  TaskService.updateTask id updateData w =
    (let w1 := afterInitialize w in
     let ts := tasks (service w1) in
     let taskIndex := findIndex (TaskService.hasId id) ts in
     if taskIndex =? -1 then
       (Normal (failure "Cannot find specified task" "INVALID_TITLE"), w1)
     else if match read (UpdateTaskInput.title updateData) with
             | Some t => negb (truthy (trim t))
             | None => false
             end
     then (Normal (failure "Task title cannot be empty" "INVALID_TITLE"), w1)
     else
       match ts !! Z.to_nat taskIndex with
       | None =>
           (Normal (failure "Error when updating task"
                      "Cannot read properties of undefined"), w1)
       | Some currentTask =>
           let updatedTask :=
             TaskService.mergeUpdate currentTask updateData (DateAt (clock w1)) in
           let ts' := <[Z.to_nat taskIndex := updatedTask]> ts in
           if canSave (disk w1)
           then (Normal (ApiResponse.mk true (js "Successfully udpate task")
                           (Some updatedTask) None),
                 savedWith ts' w1)
           else (Normal (failure "Error when updating task" "Failed to save task"),
                 withTasks ts' w1)
       end).
Proof.
  cbv zeta. unfold TaskService.updateTask, tryCatch.
  rewrite (bind_run _ _ _ _ _ (initialize_run w)).
  destruct (afterInitialize w) as [[ts ld] [dd fs wr rd] c r e] eqn:Hw1.
  rewrite (bind_run TaskService.getTasks _ _ _ _ eq_refl).
  cbn [service tasks disk clock]. cbv zeta.
  destruct (findIndex (TaskService.hasId id) ts =? -1); [reflexivity |].
  destruct (match read (UpdateTaskInput.title updateData) with
            | Some t => negb (truthy (trim t))
            | None => false
            end); [reflexivity |].
  destruct (ts !! Z.to_nat (findIndex (TaskService.hasId id) ts)) as [cur|];
    [| reflexivity].
  unfold savedWith. run_service. rewrite saveTasks_spec. run_service.
  destruct (canSave {| dataDir := dd; files := fs; writable := wr; readable := rd |});
    reflexivity.
Qed.

Lemma deleteTask_closed id w :
  TaskService.deleteTask id w =
    (let w1 := afterInitialize w in
     let ts := tasks (service w1) in
     let taskIndex := findIndex (TaskService.hasId id) ts in
     if taskIndex =? -1 then
       (Normal (failure "Cannot find specified task" "TASK_NOT_FOUND"), w1)
     else
       let ts' := splice1 taskIndex ts in
       if canSave (disk w1) then
         (Normal (match ts !! Z.to_nat taskIndex with
                  | Some t =>
                      ApiResponse.mk true
                        (js "Task " ++ quoteChar :: Task.title t
                           ++ quoteChar :: js " has been deleted")
                        (Some true) None
                  | None =>
                      failure "Error when deleting task"
                        "Cannot read properties of undefined"
                  end),
          savedWith ts' w1)
       else (Normal (failure "Error when deleting task" "Failed to save task"),
             withTasks ts' w1)).
Proof.
  cbv zeta. unfold TaskService.deleteTask, tryCatch.
  rewrite (bind_run _ _ _ _ _ (initialize_run w)).
  destruct (afterInitialize w) as [[ts ld] [dd fs wr rd] c r e] eqn:Hw1.
  rewrite (bind_run TaskService.getTasks _ _ _ _ eq_refl).
  cbn [service tasks disk writable clock]. cbv zeta.
  destruct (findIndex (TaskService.hasId id) ts =? -1); [reflexivity |].
  unfold savedWith. run_service. rewrite saveTasks_spec. run_service.
  destruct (canSave {| dataDir := dd; files := fs; writable := wr; readable := rd |});
    [| reflexivity].
  destruct (ts !! Z.to_nat (findIndex (TaskService.hasId id) ts)); reflexivity.
Qed.

(** The position [findIndex] finds is a position of the array. *)
Lemma findIndex_lookup {A} (p : A -> bool) l :
  findIndex p l <> -1 ->
  exists x, l !! Z.to_nat (findIndex p l) = Some x /\ p x = true.
Proof.
  intros H. destruct (findIndex_split p l H) as (l1 & x & l2 & -> & _ & Hx & Hi).
  exists x. split; [| assumption].
  rewrite Hi, Nat2Z.id. now apply list_lookup_middle.
Qed.

Lemma findIndex_first {A} (p : A -> bool) l1 x l2 :
  List.Forall (fun y => p y = false) l1 -> p x = true ->
  findIndex p (l1 ++ x :: l2) = Z.of_nat (length l1).
Proof.
  intros Hl1 Hx. induction Hl1 as [|y l1 Hy _ IH]; cbn.
  - now rewrite Hx.
  - rewrite Hy, IH.
    replace (Z.of_nat (length l1) =? -1) with false by (symmetry; apply Z.eqb_neq; lia).
    lia.
Qed.

(** ** fileUtils: what the file functions do to the data directory *)


(** X2.  [loadTasks] never throws, and touches nothing but the data
    directory.  A tasks file that exists is left as it is: the result is the
    stored tasks, each read by the callback of [loadTasks], when the file is a
    JSON array of task objects that can be read, and the empty array when it
    cannot be read or is not a JSON array.  Without a tasks file the result is
    the empty array; the file is then made, holding [[]], when the directory
    allows it, and nothing changes when it does not. *)
Theorem loadTasks_outcomes (w : World) :
  (exists ts w', loadTasks w = (Normal ts, w') /\ service w' = service w)
  /\ (forall c, tasksFile (disk w) = Some c ->
        snd (loadTasks w) = w
        /\ (forall l, c = JsonTasks l -> readable (disk w) = true ->
              fst (loadTasks w) = Normal (hydrateTask (engine w) <$> l))
        /\ (c = NotJsonArray \/ readable (disk w) = false ->
            fst (loadTasks w) = Normal []))
  /\ (tasksFile (disk w) = None -> writable (disk w) = true ->
      exists w',
        loadTasks w = (Normal [], w')
        /\ tasksFile (disk w') = Some (JsonTasks [])
        /\ (forall name, name <> TASKS_FILE -> dataDir (disk w) = true ->
              files (disk w') !! name = files (disk w) !! name))
  /\ (tasksFile (disk w) = None -> writable (disk w) = false ->
      loadTasks w = (Normal [], w)).
Proof.
  rewrite loadTasks_closed. split; [| split; [| split]].
  - destruct (tasksFile (disk w)); [| destruct (writable (disk w))];
      eexists _, _; split; reflexivity.
  - intros c ->. cbn [fst snd]. split; [reflexivity |]. split.
    + intros l -> ->. reflexivity.
    + intros [-> | ->]; [reflexivity |]. now destruct c.
  - intros -> ->. eexists. split; [reflexivity |].
    split; [apply tasksFile_diskWithNewFile |].
    intros name Hname Hdir. cbn [disk with_disk diskWithNewFile files].
    rewrite Hdir. now apply lookup_insert_ne.
  - intros -> ->. reflexivity.
Qed.

Lemma loadTasks_outcomes_witness :
  loadTasks corruptWorld = (Normal [], corruptWorld)
  /\ (exists w',
        loadTasks freshWorld = (Normal [], w')
        /\ tasksFile (disk w') = Some (JsonTasks []))
  /\ loadTasks (loadedWorld [taskA] false) = (Normal [taskA], loadedWorld [taskA] false).
Proof.
  pose proof (loadTasks_outcomes corruptWorld) as (_ & Hc & _).
  pose proof (loadTasks_outcomes freshWorld) as (_ & _ & Hf & _).
  pose proof (loadTasks_outcomes (loadedWorld [taskA] false)) as (_ & Hl & _).
  split; [| split].
  - destruct (Hc NotJsonArray eq_refl) as (Hs & _ & He).
    rewrite (surjective_pairing (loadTasks corruptWorld)), Hs, (He (or_introl eq_refl)).
    reflexivity.
  - destruct (Hf eq_refl eq_refl) as (w' & Hr & Hfile & _). now exists w'.
  - destruct (Hl (JSON_stringify [taskA]) eq_refl) as (Hs & Hr & _).
    rewrite (surjective_pairing (loadTasks (loadedWorld [taskA] false))), Hs,
      (Hr _ eq_refl eq_refl).
    reflexivity.
Defined.

(** X3.  When [ensureTasksFile] completes, the tasks file exists and a second
    call changes nothing; a file that was there already is not touched.  It
    throws only when the file is missing and the directory cannot be written,
    and then it has changed nothing. *)
Theorem ensureTasksFile_ensures (w : World) :
  (forall w', ensureTasksFile w = (Normal tt, w') ->
     is_Some (tasksFile (disk w'))
     /\ ensureTasksFile w' = (Normal tt, w')
     /\ (is_Some (tasksFile (disk w)) -> w' = w))
  /\ (forall e w', ensureTasksFile w = (Throw e, w') ->
        tasksFile (disk w) = None /\ writable (disk w) = false /\ w' = w).
Proof.
  rewrite ensureTasksFile_closed. split.
  - intros w' H. destruct (tasksFile (disk w)) as [c|] eqn:E.
    + injection H as <-. rewrite ensureTasksFile_closed, E.
      split; [now exists c |]. split; [reflexivity |]. reflexivity.
    + destruct (writable (disk w)); [| discriminate]. injection H as <-.
      rewrite ensureTasksFile_closed. cbn [disk with_disk].
      rewrite tasksFile_diskWithNewFile.
      split; [now eexists |]. split; [reflexivity |].
      intros [c Hc]. discriminate.
  - intros e w' H. destruct (tasksFile (disk w)); [discriminate |].
    destruct (writable (disk w)); [discriminate |].
    injection H as _ <-. repeat split.
Qed.

Lemma ensureTasksFile_ensures_witness :
  exists w',
    ensureTasksFile freshWorld = (Normal tt, w')
    /\ is_Some (tasksFile (disk w'))
    /\ ensureTasksFile w' = (Normal tt, w').
Proof.
  assert (H : ensureTasksFile freshWorld =
              (Normal tt, with_disk (diskWithNewFile (disk freshWorld)) freshWorld))
    by reflexivity.
  eexists. split; [exact H |].
  destruct (proj1 (ensureTasksFile_ensures freshWorld) _ H) as (H1 & H2 & _).
  split; assumption.
Defined.

Lemma TASKS_FILE_not_BACKUP_FILE : BACKUP_FILE <> TASKS_FILE.
Proof. discriminate. Qed.

(** X4.  [saveTasks] never throws, and answers [true] exactly when the store
    takes the write: over a tasks file that exists, when that file may be
    written, whatever the directory allows; without one, when the directory
    lets the process make it.  After [true] the tasks file holds the
    serialized collection and every other file of the directory is as before;
    after [false] nothing has changed; a second save replaces the first. *)
Theorem saveTasks_overwrites (w : World) (ts : list Task.t) :
  (forall f, tasksEntry (disk w) = Some f -> fst (saveTasks ts w) = Normal (mayWrite f))
  /\ (tasksEntry (disk w) = None -> fst (saveTasks ts w) = Normal (writable (disk w)))
  /\ (fst (saveTasks ts w) = Normal true ->
      tasksFile (disk (snd (saveTasks ts w))) = Some (JSON_stringify ts)
      /\ forall name, name <> TASKS_FILE -> dataDir (disk w) = true ->
           files (disk (snd (saveTasks ts w))) !! name = files (disk w) !! name)
  /\ (fst (saveTasks ts w) = Normal false -> snd (saveTasks ts w) = w)
  /\ (forall ts0, snd (saveTasks ts (snd (saveTasks ts0 w))) = snd (saveTasks ts w)).
Proof.
  split; [| split; [| split; [| split]]].
  - intros f Hf. rewrite saveTasks_spec. unfold canSave. now rewrite Hf.
  - intros Hf. rewrite saveTasks_spec. unfold canSave. now rewrite Hf.
  - intros H. rewrite (saveTasks_succeeds _ _ H). cbn [snd disk with_disk].
    split; [apply tasksFile_diskAfterSave |].
    intros name Hname Hdir. unfold diskAfterSave. cbn [files]. rewrite Hdir.
    now apply lookup_insert_ne.
  - intros H. now rewrite (saveTasks_fails _ _ H).
  - intros ts0. rewrite (saveTasks_spec ts0 w), (saveTasks_spec ts w).
    destruct (canSave (disk w)) eqn:Hc; cbn [snd].
    + rewrite saveTasks_spec. cbn [disk with_disk snd].
      rewrite canSave_diskAfterSave. destruct w as [s d c r e].
      unfold with_disk, diskAfterSave.
      cbn [service disk clock randomText engine dataDir files writable readable].
      now rewrite insert_insert_eq.
    + now rewrite saveTasks_spec, Hc.
Qed.

Lemma saveTasks_overwrites_witness :
  fst (saveTasks [taskB] (lockedDirectoryWorld [taskA])) = Normal true
  /\ tasksFile (disk (snd (saveTasks [taskB] (lockedDirectoryWorld [taskA]))))
     = Some (JSON_stringify [taskB])
  /\ snd (saveTasks [taskB] (loadedWorld [taskA] false)) = loadedWorld [taskA] false.
Proof.
  destruct (saveTasks_overwrites (lockedDirectoryWorld [taskA]) [taskB]) as (Hf & _ & H & _).
  destruct (saveTasks_overwrites (loadedWorld [taskA] false) [taskB]) as (Hf' & _ & _ & H' & _).
  pose proof (Hf (mkFile (JSON_stringify [taskA]) true) eq_refl) as Htrue.
  pose proof (Hf' (mkFile (JSON_stringify [taskA]) false) eq_refl) as Hfalse.
  split; [exact Htrue |]. split; [apply (H Htrue) | apply (H' Hfalse)].
Defined.

(** X5.  [backupTasks] leaves the tasks file and the service as they are.
    After a backup that answered [true] the backup file holds what the tasks
    file held, and a later [saveTasks] does not change it. *)
Theorem backupTasks_snapshot (w : World) :
  tasksFile (disk (snd (backupTasks w))) = tasksFile (disk w)
  /\ service (snd (backupTasks w)) = service w
  /\ (forall c ts,
        tasksFile (disk w) = Some c ->
        fst (backupTasks w) = Normal true ->
        content <$> files (disk (snd (backupTasks w))) !! BACKUP_FILE = Some c
        /\ content <$> files (disk (snd (saveTasks ts (snd (backupTasks w))))) !! BACKUP_FILE
           = Some c).
Proof.
  rewrite backupTasks_spec.
  destruct (tasksEntry (disk w)) as [f|] eqn:E.
  2:{ split; [reflexivity |]. split; [reflexivity |].
      intros c ts Hc. unfold tasksFile in Hc. rewrite E in Hc. discriminate Hc. }
  assert (Hdir : dataDir (disk w) = true).
  { unfold tasksEntry in E. now destruct (dataDir (disk w)). }
  destruct (readable (disk w) && _) eqn:Hrw.
  - split; [| split; [reflexivity |]].
    + cbn [snd disk with_disk]. unfold tasksFile, tasksEntry in *. cbn [dataDir files].
      rewrite Hdir.
      now rewrite lookup_insert_ne by apply TASKS_FILE_not_BACKUP_FILE.
    + intros c ts Hc _. unfold tasksFile in Hc. rewrite E in Hc. injection Hc as <-.
      cbn [snd disk with_disk files].
      split; [now rewrite lookup_insert_eq |].
      rewrite saveTasks_spec. destruct (canSave _); cbn [snd disk with_disk files].
      * unfold diskAfterSave. cbn [dataDir files].
        rewrite lookup_insert_ne
          by (intros H; symmetry in H; now apply TASKS_FILE_not_BACKUP_FILE).
        now rewrite lookup_insert_eq.
      * now rewrite lookup_insert_eq.
  - split; [reflexivity |]. split; [reflexivity |].
    intros c ts _ [=].
Qed.

Lemma backupTasks_snapshot_witness :
  content <$> files (disk (snd (saveTasks [taskB]
                                  (snd (backupTasks (loadedWorld [taskA] true))))))
                !! BACKUP_FILE
  = Some (JSON_stringify [taskA]).
Proof.
  apply (proj2 (proj2 (backupTasks_snapshot (loadedWorld [taskA] true)))
           (JSON_stringify [taskA]) [taskB]); reflexivity.
Defined.

(** ** The service: creating, finding, updating, deleting *)

Lemma newTaskFor_afterInitialize input w :
  newTaskFor input (afterInitialize w) = newTaskFor input w.
Proof.
  unfold newTaskFor, generatedId.
  now rewrite afterInitialize_clock, afterInitialize_randomText.
Qed.

Lemma find_first {A} (p : A -> bool) l1 x l2 :
  List.Forall (fun y => p y = false) l1 -> p x = true ->
  find p (l1 ++ x :: l2) = Some x.
Proof.
  intros Hl1 Hx. unfold find. induction Hl1 as [|y l1 Hy _ IH]; cbn.
  - now rewrite Hx.
  - now rewrite Hy.
Qed.

Lemma insert_middle {A} (l1 l2 : list A) x y :
  <[length l1 := y]> (l1 ++ x :: l2) = l1 ++ y :: l2.
Proof.
  replace (length l1) with (length l1 + 0)%nat at 1 by lia.
  now rewrite insert_app_r.
Qed.

(** The first task that carries an id that is present. *)
Lemma first_with_id id (ts : list Task.t) :
  id ∈ Task.id <$> ts ->
  exists l1 t l2,
    ts = l1 ++ t :: l2 /\ Task.id t = id /\ (id ∉ Task.id <$> l1)
    /\ List.Forall (fun y => TaskService.hasId id y = false) l1
    /\ findIndex (TaskService.hasId id) ts = Z.of_nat (length l1).
Proof.
  intros H. destruct (hasId_present _ _ H) as (l1 & t & l2 & E & Hid & Hl1 & Hi).
  exists l1, t, l2. repeat split; try assumption.
  now apply hasId_Forall_absent.
Qed.

Lemma index_not_minus_one (n : nat) : (Z.of_nat n =? -1) = false.
Proof. apply Z.eqb_neq. lia. Qed.

(** X6.  With a non-blank title on a store that takes the save,
    [createTask] succeeds: the task it returns has the trimmed title and
    description, status [TODO], both timestamps at the clock reading and the
    due date as given; it is appended at the end of the collection, and the
    file holds the new collection. *)
Theorem createTask_success (input : CreateTaskInput.t) (w : World) :
  trim (CreateTaskInput.title input) <> [] ->
  canSave (disk w) = true ->
  exists task w',
    TaskService.createTask input w =
      (Normal (ApiResponse.mk true (js "Successfully create task") (Some task) None), w')
    /\ tasks (service w') = tasks (service (afterInitialize w)) ++ [task]
    /\ tasksFile (disk w') = Some (JSON_stringify (tasks (service w')))
    /\ Task.title task = trim (CreateTaskInput.title input)
    /\ Task.description task = trim <$> CreateTaskInput.description input
    /\ Task.status task = Some TODO
    /\ Task.createdAt task = DateAt (clock w)
    /\ Task.updatedAt task = DateAt (clock w)
    /\ Task.dueDate task = CreateTaskInput.dueDate input.
Proof.
  intros Ht Hw. rewrite createTask_closed. cbv zeta.
  rewrite (truthy_nonempty _ Ht), afterInitialize_canSave, Hw.
  rewrite newTaskFor_afterInitialize.
  eexists _, _. split; [reflexivity |].
  split; [reflexivity |]. split; [apply tasksFile_diskAfterSave |].
  repeat split.
Qed.

Lemma createTask_success_witness :
  exists task w',
    TaskService.createTask (CreateTaskInput.mk (js " Buy milk ") None None)
      (loadedWorld [taskA] true) =
      (Normal (ApiResponse.mk true (js "Successfully create task") (Some task) None), w')
    /\ tasks (service w') = [taskA; task]
    /\ Task.title task = js "Buy milk".
Proof.
  destruct (createTask_success (CreateTaskInput.mk (js " Buy milk ") None None)
              (loadedWorld [taskA] true))
    as (task & w' & Hr & Hts & _ & Htitle & _).
  - vm_compute. discriminate.
  - reflexivity.
  - exists task, w'. split; [exact Hr |]. split; [| exact Htitle].
    rewrite Hts. now rewrite afterInitialize_loaded.
Defined.

(** X7.  A parse failure is not reported: on a service not yet loaded whose
    tasks file is not a JSON array, [createTask] starts from an empty
    collection, succeeds, and replaces the content of the file by the one new
    task. *)
Theorem createTask_over_unparseable_file (input : CreateTaskInput.t) (w : World) :
  isLoaded (service w) = false ->
  tasksFile (disk w) = Some NotJsonArray ->
  canSave (disk w) = true ->
  trim (CreateTaskInput.title input) <> [] ->
  exists w',
    TaskService.createTask input w =
      (Normal (ApiResponse.mk true (js "Successfully create task")
                 (Some (newTaskFor input w)) None), w')
    /\ tasks (service w') = [newTaskFor input w]
    /\ tasksFile (disk w') = Some (JSON_stringify [newTaskFor input w]).
Proof.
  intros Hl Hf Hw Ht. rewrite createTask_closed. cbv zeta.
  rewrite (truthy_nonempty _ Ht), afterInitialize_canSave, Hw.
  rewrite newTaskFor_afterInitialize.
  assert (Hts : tasks (service (afterInitialize w)) = []).
  { rewrite afterInitialize_closed, Hl, Hf. reflexivity. }
  rewrite Hts. eexists. split; [reflexivity |].
  split; [reflexivity |]. apply tasksFile_diskAfterSave.
Qed.

Lemma createTask_over_unparseable_file_witness :
  tasksFile (disk (snd (TaskService.createTask
                          (CreateTaskInput.mk (js "Buy milk") None None) corruptWorld)))
  = Some (JSON_stringify [newTaskFor (CreateTaskInput.mk (js "Buy milk") None None)
                            corruptWorld]).
Proof.
  destruct (createTask_over_unparseable_file
              (CreateTaskInput.mk (js "Buy milk") None None) corruptWorld)
    as (w' & Hr & _ & Hf).
  - reflexivity.
  - reflexivity.
  - reflexivity.
  - vm_compute. discriminate.
  - rewrite Hr. exact Hf.
Defined.

(** X8.  [getTaskById] on an id that is present succeeds with the first task
    of the collection that carries the id, and changes nothing. *)
Theorem getTaskById_finds_first (id : JsString) (w : World) :
  id ∈ Task.id <$> tasks (service (afterInitialize w)) ->
  exists l1 task l2,
    tasks (service (afterInitialize w)) = l1 ++ task :: l2
    /\ (id ∉ Task.id <$> l1)
    /\ Task.id task = id
    /\ TaskService.getTaskById id w =
         (Normal (ApiResponse.mk true (js "Successfully got the task") (Some task) None),
          afterInitialize w).
Proof.
  intros H. destruct (first_with_id _ _ H) as (l1 & t & l2 & E & Hid & Hno & Hl1 & _).
  exists l1, t, l2. repeat split; try assumption.
  rewrite getTaskById_closed, E, find_first; [reflexivity | assumption |].
  now apply hasId_eq.
Qed.

Lemma getTaskById_finds_first_witness :
  TaskService.getTaskById (js "a") (loadedWorld [taskB; taskA; taskA2] true) =
    (Normal (ApiResponse.mk true (js "Successfully got the task") (Some taskA) None),
     loadedWorld [taskB; taskA; taskA2] true).
Proof.
  destruct (getTaskById_finds_first (js "a") (loadedWorld [taskB; taskA; taskA2] true))
    as (l1 & task & l2 & E & Hno & Hid & Hr).
  - rewrite afterInitialize_loaded by reflexivity.
    apply list_elem_of_further, list_elem_of_here.
  - rewrite afterInitialize_loaded in E, Hr by reflexivity. rewrite Hr.
    destruct l1 as [|x l1]; [injection E as <- _; discriminate Hid |].
    injection E as <- E.
    destruct l1 as [|y l1]; [injection E as <- _; reflexivity |].
    injection E as <- _. exfalso. apply Hno.
    apply list_elem_of_further, list_elem_of_here.
Defined.

(** X9.  An id that is not in the collection: [getTaskById] and [deleteTask]
    both fail with [TASK_NOT_FOUND] and change nothing. *)
Theorem unknown_id_not_found (id : JsString) (w : World) :
  id ∉ Task.id <$> tasks (service (afterInitialize w)) ->
  TaskService.getTaskById id w =
    (Normal (failure "Cannot find specified task" "TASK_NOT_FOUND"), afterInitialize w)
  /\ TaskService.deleteTask id w =
       (Normal (failure "Cannot find specified task" "TASK_NOT_FOUND"), afterInitialize w).
Proof.
  intros H. split; [now apply getTaskById_unknown_id | now apply deleteTask_unknown_id].
Qed.

Lemma unknown_id_not_found_witness :
  TaskService.getTaskById (js "zzz") (loadedWorld [taskA] true) =
    (Normal (failure "Cannot find specified task" "TASK_NOT_FOUND"), loadedWorld [taskA] true)
  /\ TaskService.deleteTask (js "zzz") (loadedWorld [taskA] true) =
       (Normal (failure "Cannot find specified task" "TASK_NOT_FOUND"),
        loadedWorld [taskA] true).
Proof.
  pose proof (afterInitialize_loaded (loadedWorld [taskA] true) eq_refl) as Hw.
  rewrite <- Hw at 2 4.
  apply unknown_id_not_found. rewrite Hw.
  apply (bool_decide_unpack _). vm_compute. exact I.
Defined.

(** X10.  [updateTask] on an id that is present, with no title or a
    non-blank one, on a store that takes the save: the first task carrying
    the id is replaced in place by the merged task, every other task and the
    order stay, and the file holds the new collection.  The merged task keeps
    id and creation time and has [updatedAt] at the clock reading.  Its title
    and description are the trimmed ones [updateData] gives, and the current
    ones when reading [updateData] gives none.  Its status and its due date
    are the current ones when [updateData] has no such property; when it has
    the property they are what the property holds, also when that is
    [undefined]: the merged task then has no status, or no due date. *)
Theorem updateTask_success (id : JsString) (updateData : UpdateTaskInput.t) (w : World) :
  id ∈ Task.id <$> tasks (service (afterInitialize w)) ->
  (forall t, read (UpdateTaskInput.title updateData) = Some t -> trim t <> []) ->
  canSave (disk w) = true ->
  exists l1 currentTask l2 updatedTask w',
    tasks (service (afterInitialize w)) = l1 ++ currentTask :: l2
    /\ (id ∉ Task.id <$> l1)
    /\ TaskService.updateTask id updateData w =
         (Normal (ApiResponse.mk true (js "Successfully udpate task")
                    (Some updatedTask) None), w')
    /\ tasks (service w') = l1 ++ updatedTask :: l2
    /\ tasksFile (disk w') = Some (JSON_stringify (tasks (service w')))
    /\ Task.id updatedTask = id
    /\ Task.createdAt updatedTask = Task.createdAt currentTask
    /\ Task.updatedAt updatedTask = DateAt (clock w)
    /\ Task.title updatedTask =
         match read (UpdateTaskInput.title updateData) with
         | Some t => trim t
         | None => Task.title currentTask
         end
    /\ Task.description updatedTask =
         match read (UpdateTaskInput.description updateData) with
         | Some d => Some (trim d)
         | None => Task.description currentTask
         end
    /\ (UpdateTaskInput.status updateData = Absent ->
        Task.status updatedTask = Task.status currentTask)
    /\ (forall v, UpdateTaskInput.status updateData = Holds v ->
                  Task.status updatedTask = v)
    /\ (UpdateTaskInput.dueDate updateData = Absent ->
        Task.dueDate updatedTask = Task.dueDate currentTask)
    /\ (forall v, UpdateTaskInput.dueDate updateData = Holds v ->
                  Task.dueDate updatedTask = v).
Proof.
  intros Hin Htitle Hw.
  destruct (first_with_id _ _ Hin) as (l1 & cur & l2 & E & Hid & Hno & _ & Hi).
  exists l1, cur, l2. rewrite updateTask_closed. cbv zeta.
  rewrite Hi, index_not_minus_one, Nat2Z.id, E.
  rewrite (list_lookup_middle l1 l2 cur (length l1) eq_refl), insert_middle.
  replace (match read (UpdateTaskInput.title updateData) with
           | Some t => negb (truthy (trim t))
           | None => false
           end) with false.
  2:{ destruct (read (UpdateTaskInput.title updateData)) as [t|] eqn:Et; [| reflexivity].
      now rewrite (truthy_nonempty _ (Htitle t eq_refl)). }
  rewrite afterInitialize_canSave, Hw, afterInitialize_clock.
  eexists _, _. split; [reflexivity |]. split; [assumption |].
  split; [reflexivity |]. split; [reflexivity |].
  split; [apply tasksFile_diskAfterSave |].
  split; [assumption |].
  unfold TaskService.mergeUpdate.
  cbn [Task.createdAt Task.updatedAt Task.title Task.description Task.status Task.dueDate].
  split; [reflexivity |]. split; [reflexivity |].
  split; [now destruct (read (UpdateTaskInput.title updateData)) |].
  split; [reflexivity |].
  split; [now intros -> |]. split; [now intros v -> |].
  split; [now intros -> | now intros v ->].
Qed.

Lemma updateTask_success_witness :
  (exists w',
     TaskService.updateTask (js "b")
       (UpdateTaskInput.mk (Holds (Some (js " Review twice "))) Absent
          (Holds (Some COMPLETED)) Absent)
       (loadedWorld [taskA; taskB] true) =
       (Normal (ApiResponse.mk true (js "Successfully udpate task")
                  (Some (Task.mk (js "b") (js "Review twice") (Some (js "second pass"))
                           (Some COMPLETED) (DateAt jan2024) (DateAt jul2024)
                           (Some (DateAt jan2024)))) None), w'))
  /\ (exists w',
        TaskService.updateTask (js "b") nothingChanged (loadedWorld [taskA; taskB] true) =
          (Normal (ApiResponse.mk true (js "Successfully udpate task")
                     (Some (Task.mk (js "b") (js "Review") (Some (js "second pass"))
                              None (DateAt jan2024) (DateAt jul2024)
                              (Some (DateAt jan2024)))) None), w')).
Proof.
  assert (Hin : js "b" ∈ Task.id <$> tasks (service (afterInitialize
                                                       (loadedWorld [taskA; taskB] true)))).
  { rewrite afterInitialize_loaded by reflexivity.
    apply list_elem_of_further, list_elem_of_here. }
  split.
  - destruct (updateTask_success (js "b")
                (UpdateTaskInput.mk (Holds (Some (js " Review twice "))) Absent
                   (Holds (Some COMPLETED)) Absent)
                (loadedWorld [taskA; taskB] true) Hin)
      as (l1 & cur & l2 & upd & w' & _ & _ & Hr & _).
    + intros t [= <-]. vm_compute. discriminate.
    + reflexivity.
    + exists w'. rewrite Hr.
      assert (Hfst : fst (TaskService.updateTask (js "b")
                (UpdateTaskInput.mk (Holds (Some (js " Review twice "))) Absent
                   (Holds (Some COMPLETED)) Absent)
                (loadedWorld [taskA; taskB] true)) =
              Normal (ApiResponse.mk true (js "Successfully udpate task")
                 (Some (Task.mk (js "b") (js "Review twice") (Some (js "second pass"))
                          (Some COMPLETED) (DateAt jan2024) (DateAt jul2024)
                          (Some (DateAt jan2024)))) None)) by (vm_compute; reflexivity).
      rewrite Hr in Hfst. cbn [fst] in Hfst. now rewrite Hfst.
  - destruct (updateTask_success (js "b") nothingChanged
                (loadedWorld [taskA; taskB] true) Hin)
      as (l1 & cur & l2 & upd & w' & _ & _ & Hr & _).
    + intros t [=].
    + reflexivity.
    + exists w'. rewrite Hr.
      assert (Hfst : fst (TaskService.updateTask (js "b") nothingChanged
                            (loadedWorld [taskA; taskB] true)) =
              Normal (ApiResponse.mk true (js "Successfully udpate task")
                 (Some (Task.mk (js "b") (js "Review") (Some (js "second pass"))
                          None (DateAt jan2024) (DateAt jul2024)
                          (Some (DateAt jan2024)))) None)) by (vm_compute; reflexivity).
      rewrite Hr in Hfst. cbn [fst] in Hfst. now rewrite Hfst.
Defined.

(** X11.  A title that is provided and trims to the empty string: when the
    id is present [updateTask] fails with [INVALID_TITLE] and changes
    nothing. *)
Theorem updateTask_blank_title (id t : JsString) (updateData : UpdateTaskInput.t) (w : World) :
  id ∈ Task.id <$> tasks (service (afterInitialize w)) ->
  read (UpdateTaskInput.title updateData) = Some t ->
  trim t = [] ->
  TaskService.updateTask id updateData w =
    (Normal (failure "Task title cannot be empty" "INVALID_TITLE"), afterInitialize w).
Proof.
  intros Hin Ht Hblank.
  destruct (first_with_id _ _ Hin) as (l1 & cur & l2 & E & _ & _ & _ & Hi).
  rewrite updateTask_closed. cbv zeta.
  rewrite Hi, index_not_minus_one, Ht, Hblank. reflexivity.
Qed.

Lemma updateTask_blank_title_witness :
  TaskService.updateTask (js "a")
    (UpdateTaskInput.mk (Holds (Some (js "  "))) Absent Absent Absent)
    (loadedWorld [taskA] true) =
    (Normal (failure "Task title cannot be empty" "INVALID_TITLE"), loadedWorld [taskA] true).
Proof.
  pose proof (afterInitialize_loaded (loadedWorld [taskA] true) eq_refl) as Hw.
  rewrite <- Hw at 2.
  apply (updateTask_blank_title (js "a") (js "  ")).
  - rewrite Hw. apply list_elem_of_here.
  - reflexivity.
  - reflexivity.
Defined.

(** X12.  [deleteTask] on an id that is present, on a store that takes the
    save: the first task carrying the id is removed, the others stay in
    their order (also those with the same id), the file holds the new
    collection, and the message quotes the title of the removed task. *)
Theorem deleteTask_removes_first (id : JsString) (w : World) :
  id ∈ Task.id <$> tasks (service (afterInitialize w)) ->
  canSave (disk w) = true ->
  exists l1 task l2 w',
    tasks (service (afterInitialize w)) = l1 ++ task :: l2
    /\ (id ∉ Task.id <$> l1)
    /\ Task.id task = id
    /\ TaskService.deleteTask id w =
         (Normal (ApiResponse.mk true
                    (js "Task " ++ quoteChar :: Task.title task
                       ++ quoteChar :: js " has been deleted")
                    (Some true) None), w')
    /\ tasks (service w') = l1 ++ l2
    /\ tasksFile (disk w') = Some (JSON_stringify (l1 ++ l2)).
Proof.
  intros Hin Hw.
  destruct (first_with_id _ _ Hin) as (l1 & t & l2 & E & Hid & Hno & _ & Hi).
  exists l1, t, l2. rewrite deleteTask_closed. cbv zeta.
  rewrite Hi, index_not_minus_one, Nat2Z.id, E.
  rewrite (list_lookup_middle l1 l2 t (length l1) eq_refl), splice1_middle.
  rewrite afterInitialize_canSave, Hw.
  eexists. repeat split; try assumption. apply tasksFile_diskAfterSave.
Qed.

Lemma deleteTask_removes_first_witness :
  exists message w',
    TaskService.deleteTask (js "a") (loadedWorld [taskB; taskA; taskA2] true) =
      (Normal (ApiResponse.mk true message (Some true) None), w')
    /\ tasks (service w') = [taskB; taskA2].
Proof.
  destruct (deleteTask_removes_first (js "a") (loadedWorld [taskB; taskA; taskA2] true))
    as (l1 & task & l2 & w' & E & Hno & Hid & Hr & Hts & _).
  - rewrite afterInitialize_loaded by reflexivity.
    apply list_elem_of_further, list_elem_of_here.
  - reflexivity.
  - eexists _, w'. split; [exact Hr |]. rewrite Hts.
    rewrite afterInitialize_loaded in E by reflexivity.
    destruct l1 as [|x l1]; [injection E as <- _; discriminate Hid |].
    injection E as <- E.
    destruct l1 as [|y l1]; [injection E as _ <-; reflexivity |].
    injection E as <- _. exfalso. apply Hno.
    apply list_elem_of_further, list_elem_of_here.
Defined.

(** ** The service: responses and state discipline *)

Lemma wellFormed_failure {T} message code : wellFormed (failure (T := T) message code).
Proof. right. repeat split. now eexists. Qed.

Lemma wellFormed_success {T} message (x : T) :
  wellFormed (ApiResponse.mk true message (Some x) None).
Proof. left. repeat split. now eexists. Qed.

Lemma pair_of_fst {A B} (p : A * B) a : fst p = a -> p = (a, snd p).
Proof. destruct p. cbn. now intros ->. Qed.

Lemma tasks_savedWith ts w : tasks (service (savedWith ts w)) = ts.
Proof. reflexivity. Qed.

Lemma tasksFile_savedWith ts w :
  tasksFile (disk (savedWith ts w)) = Some (JSON_stringify ts).
Proof. apply tasksFile_diskAfterSave. Qed.

(** X13.  Every operation of the service that is wrapped in [try]/[catch]
    completes, in every state and on every input, with a response that is
    either a success carrying data and no error code or a failure carrying an
    error code and no data. *)
Theorem responses_well_formed (w : World) :
  (forall input, exists r w',
     TaskService.createTask input w = (Normal r, w') /\ wellFormed r)
  /\ (forall filterOptions, exists r w',
        TaskService.getAllTasks filterOptions w = (Normal r, w') /\ wellFormed r)
  /\ (forall id, exists r w',
        TaskService.getTaskById id w = (Normal r, w') /\ wellFormed r)
  /\ (forall id updateData, exists r w',
        TaskService.updateTask id updateData w = (Normal r, w') /\ wellFormed r)
  /\ (forall id, exists r w',
        TaskService.deleteTask id w = (Normal r, w') /\ wellFormed r)
  /\ (exists r w', TaskService.getTaskStats w = (Normal r, w') /\ wellFormed r).
Proof.
  repeat split.
  - intros input. rewrite createTask_closed. cbv zeta.
    destruct (truthy _); [destruct (canSave _) |]; eexists _, _;
      (split; [reflexivity |]);
      first [apply wellFormed_success | apply wellFormed_failure].
  - intros f. rewrite getAllTasks_run. cbv zeta. eexists _, _.
    split; [reflexivity | apply wellFormed_success].
  - intros id. rewrite getTaskById_closed. eexists _, _. split; [reflexivity |].
    destruct (find _ _); [apply wellFormed_success | apply wellFormed_failure].
  - intros id u. rewrite updateTask_closed. cbv zeta.
    destruct (_ =? -1); [| destruct (match read (UpdateTaskInput.title u) with
                                     | Some t => negb (truthy (trim t))
                                     | None => false
                                     end);
                           [| destruct (_ !! _); [destruct (canSave _) |]]];
      eexists _, _; (split; [reflexivity |]);
      first [apply wellFormed_success | apply wellFormed_failure].
  - intros id. rewrite deleteTask_closed. cbv zeta.
    destruct (_ =? -1); [| destruct (canSave _)]; eexists _, _;
      (split; [reflexivity |]); try apply wellFormed_failure.
    destruct (_ !! _); [apply wellFormed_success | apply wellFormed_failure].
  - rewrite getTaskStats_run. cbv zeta. eexists _, _.
    split; [reflexivity | apply wellFormed_success].
Qed.

(** X14.  Memory and file agree after every successful mutation: when
    [createTask], [updateTask] or [deleteTask] answers with a success, the
    tasks file holds the serialization of the collection in memory. *)
Theorem saved_on_success (w : World) :
  (forall input r w',
     TaskService.createTask input w = (Normal r, w') ->
     ApiResponse.success r = true ->
     tasksFile (disk w') = Some (JSON_stringify (tasks (service w'))))
  /\ (forall id updateData r w',
        TaskService.updateTask id updateData w = (Normal r, w') ->
        ApiResponse.success r = true ->
        tasksFile (disk w') = Some (JSON_stringify (tasks (service w'))))
  /\ (forall id r w',
        TaskService.deleteTask id w = (Normal r, w') ->
        ApiResponse.success r = true ->
        tasksFile (disk w') = Some (JSON_stringify (tasks (service w')))).
Proof.
  split; [| split].
  - intros input r w'. rewrite createTask_closed. cbv zeta.
    destruct (truthy _); [destruct (canSave _) |]; intros [= <- <-]; try discriminate.
    intros _. apply tasksFile_savedWith.
  - intros id u r w'. rewrite updateTask_closed. cbv zeta.
    destruct (_ =? -1); [| destruct (match read (UpdateTaskInput.title u) with
                                     | Some t => negb (truthy (trim t))
                                     | None => false
                                     end);
                           [| destruct (_ !! _); [destruct (canSave _) |]]];
      intros [= <- <-]; try discriminate.
    intros _. apply tasksFile_savedWith.
  - intros id r w'. rewrite deleteTask_closed. cbv zeta.
    destruct (_ =? -1); [| destruct (canSave _)]; intros [= <- <-]; try discriminate.
    intros _. apply tasksFile_savedWith.
Qed.

Lemma saved_on_success_witness :
  let w' := snd (TaskService.deleteTask (js "a") (loadedWorld [taskA; taskB] true)) in
  tasksFile (disk w') = Some (JSON_stringify (tasks (service w'))).
Proof.
  cbv zeta.
  destruct (saved_on_success (loadedWorld [taskA; taskB] true)) as (_ & _ & H).
  eapply (H (js "a")).
  - apply pair_of_fst. vm_compute. reflexivity.
  - reflexivity.
Defined.

(** X15.  The reading operations change nothing but what initialization
    changes: after [getAllTasks], [getTaskById] and [getTaskStats] the state
    is the state [initialize] leaves, which on a loaded service is the state
    before the call. *)
Theorem reads_leave_state (w : World) :
  (forall filterOptions,
     snd (TaskService.getAllTasks filterOptions w) = afterInitialize w)
  /\ (forall id, snd (TaskService.getTaskById id w) = afterInitialize w)
  /\ snd (TaskService.getTaskStats w) = afterInitialize w
  /\ (isLoaded (service w) = true -> afterInitialize w = w).
Proof.
  repeat split.
  - intros f. now rewrite getAllTasks_run.
  - intros id. now rewrite getTaskById_closed.
  - now rewrite getTaskStats_run.
  - apply afterInitialize_loaded.
Qed.

Lemma reads_leave_state_witness :
  snd (TaskService.getAllTasks None (loadedWorld [taskA; taskB] true))
  = loadedWorld [taskA; taskB] true.
Proof.
  destruct (reads_leave_state (loadedWorld [taskA; taskB] true)) as (H & _ & _ & Hl).
  rewrite H. apply Hl. reflexivity.
Defined.

(** ** Listing *)

Lemma notOlder_trans a b c : notOlder a b -> notOlder b c -> notOlder a c.
Proof.
  intros (x & y & Ha & Hb & H1) (y' & z & Hb' & Hc & H2).
  rewrite Hb in Hb'. injection Hb' as <-.
  exists x, z. repeat split; try assumption. lia.
Qed.

Lemma insertSorted_newest_first x l :
  validCreatedAt x -> List.Forall validCreatedAt l ->
  StronglySorted notOlder l ->
  StronglySorted notOlder
    (insertSorted (fun a b => getTime_minus (Task.createdAt b) (Task.createdAt a)) x l).
Proof.
  intros [tx Hx] Hl Hs. induction Hs as [|y r Hr IH Hy]; cbn.
  - repeat constructor.
  - apply List.Forall_cons_iff in Hl as [[ty Hty] Hl].
    rewrite Hx, Hty. cbn [getTime_minus].
    destruct (Z.ltb_spec 0 (ty - tx)) as [Hlt|Hge].
    + constructor; [now apply IH |].
      apply List.Forall_forall. intros z Hz.
      apply list_elem_of_In in Hz. rewrite insertSorted_perm in Hz.
      apply elem_of_cons in Hz as [-> | Hz].
      * exists ty, tx. repeat split; try assumption. lia.
      * apply list_elem_of_In in Hz.
        exact (proj1 (List.Forall_forall _ _) Hy z Hz).
    + assert (Hxy : notOlder x y) by (exists tx, ty; repeat split; try assumption; lia).
      constructor; [now constructor |].
      constructor; [assumption |].
      apply List.Forall_forall. intros z Hz.
      apply (notOlder_trans _ y); [assumption |].
      exact (proj1 (List.Forall_forall _ _) Hy z Hz).
Qed.

Lemma stableSort_newest_first l :
  List.Forall validCreatedAt l ->
  StronglySorted notOlder
    (stableSort (fun a b => getTime_minus (Task.createdAt b) (Task.createdAt a)) l).
Proof.
  induction 1 as [|x l Hx Hl IH]; [constructor |].
  change (StronglySorted notOlder
            (insertSorted (fun a b => getTime_minus (Task.createdAt b) (Task.createdAt a)) x
               (stableSort (fun a b => getTime_minus (Task.createdAt b) (Task.createdAt a))
                  l))).
  apply insertSorted_newest_first; [assumption | | assumption].
  apply List.Forall_forall. intros z Hz.
  apply list_elem_of_In in Hz. rewrite (stableSort_perm _ l) in Hz.
  apply list_elem_of_In in Hz.
  exact (proj1 (List.Forall_forall _ _) Hl z Hz).
Qed.

(** On valid creation dates the comparison function of [getAllTasks] is a
    consistent comparator. *)
Lemma createdAt_comparator_consistent l :
  List.Forall validCreatedAt l ->
  consistentComparator (fun a b => getTime_minus (Task.createdAt b) (Task.createdAt a)) l
  = true.
Proof.
  intros Hl. unfold consistentComparator.
  apply forallb_forall. intros a Ha. apply forallb_forall. intros b Hb.
  apply forallb_forall. intros c Hc.
  destruct (proj1 (List.Forall_forall _ _) Hl a Ha) as [x Hx].
  destruct (proj1 (List.Forall_forall _ _) Hl b Hb) as [y Hy].
  destruct (proj1 (List.Forall_forall _ _) Hl c Hc) as [z Hz].
  unfold consistentAt. rewrite Hx, Hy, Hz. cbn [getTime_minus].
  destruct (Z.eqb_spec (x - x) 0), (Z.eqb_spec (y - x) 0), (Z.eqb_spec (x - y) 0),
    (Z.eqb_spec (z - y) 0), (Z.eqb_spec (z - x) 0),
    (Z.ltb_spec (y - x) 0), (Z.ltb_spec (z - y) 0), (Z.ltb_spec (z - x) 0),
    (Z.ltb_spec 0 (y - x)), (Z.ltb_spec 0 (z - y)), (Z.ltb_spec 0 (z - x));
    cbn; try reflexivity; lia.
Qed.

(** X16.  When every task of the collection has a valid creation date,
    [getAllTasks] returns its tasks newest first: no task of the result is
    followed by a task created later. *)
Theorem getAllTasks_newest_first_always
  (filterOptions : option TaskFilterOptions.t) (w : World) :
  List.Forall validCreatedAt (tasks (service (afterInitialize w))) ->
  exists found message,
    TaskService.getAllTasks filterOptions w =
      (Normal (ApiResponse.mk true message (Some found) None), afterInitialize w)
    /\ StronglySorted notOlder found.
Proof.
  intros Hvalid. rewrite getAllTasks_run. cbv zeta. eexists _, _.
  split; [reflexivity |].
  assert (Hfound : List.Forall validCreatedAt
                     (match filterOptions with
                      | Some filters =>
                          TaskService.applyFilters (tasks (service (afterInitialize w)))
                            filters
                      | None => tasks (service (afterInitialize w))
                      end)).
  { destruct filterOptions as [f|]; [| assumption].
    unfold TaskService.applyFilters. apply List.Forall_forall. intros z Hz.
    apply List.filter_In in Hz as [Hz _].
    exact (proj1 (List.Forall_forall _ _) Hvalid z Hz). }
  unfold sort. rewrite (createdAt_comparator_consistent _ Hfound).
  now apply stableSort_newest_first.
Qed.

Lemma getAllTasks_newest_first_always_witness :
  exists found message,
    TaskService.getAllTasks None (loadedWorld [taskA; taskA2; taskB] true) =
      (Normal (ApiResponse.mk true message (Some found) None),
       afterInitialize (loadedWorld [taskA; taskA2; taskB] true))
    /\ StronglySorted notOlder found.
Proof.
  apply getAllTasks_newest_first_always.
  rewrite afterInitialize_loaded by reflexivity.
  repeat constructor; eexists; reflexivity.
Defined.

(** X17.  [getAllTasks] returns each task that passes the filter exactly as
    often as the collection holds it (without a filter: every task), and its
    message states their number. *)
Theorem getAllTasks_permutation (filterOptions : option TaskFilterOptions.t) (w : World) :
  exists found,
    TaskService.getAllTasks filterOptions w =
      (Normal (ApiResponse.mk true
                 (js "Found " ++ natToString 10 (N.of_nat (length found)) ++ js " tasks")
                 (Some found) None),
       afterInitialize w)
    /\ found ≡ₚ match filterOptions with
                | Some filters =>
                    TaskService.applyFilters (tasks (service (afterInitialize w))) filters
                | None => tasks (service (afterInitialize w))
                end.
Proof.
  rewrite getAllTasks_run. cbv zeta. eexists. split; [reflexivity |]. apply sort_perm.
Qed.

(** ** Filtering, continued *)

(** X18.  The [status] criterion keeps the tasks of exactly that status; the
    [hasDescription] criterion set to [true] keeps the tasks whose description
    is present and not blank, set to [false] the tasks whose description is
    absent or blank. *)
Theorem status_and_description_criteria (task : Task.t) :
  (forall s,
     TaskService.passesFilters (statusOnly (Some s)) task = true
     <-> Task.status task = Some s)
  /\ (TaskService.passesFilters (hasDescriptionOnly (Some true)) task = true
      <-> exists d, Task.description task = Some d /\ trim d <> [])
  /\ (TaskService.passesFilters (hasDescriptionOnly (Some false)) task = true
      <-> Task.description task = None
          \/ exists d, Task.description task = Some d /\ trim d = []).
Proof.
  unfold TaskService.passesFilters. cbn. split; [| split].
  - intros s. rewrite <- statusIs_eq.
    destruct (statusIs s (Task.status task)); cbn; split; congruence.
  - destruct (Task.description task) as [d|]; cbn.
    + destruct (trim d) eqn:E; cbn; split; try discriminate.
      * intros (d' & [= <-] & H). now rewrite E in H.
      * intros _. exists d. split; [reflexivity |]. now rewrite E.
      * reflexivity.
    + split; [discriminate | intros (d & [=] & _)].
  - destruct (Task.description task) as [d|]; cbn.
    + destruct (trim d) eqn:E; cbn; split; try discriminate.
      * intros _. right. exists d. now rewrite E.
      * reflexivity.
      * intros [[=] | (d' & [= <-] & H)]. now rewrite E in H.
    + split; [now left | reflexivity].
Qed.

Lemma filter_filter {A} (p q : A -> bool) l :
  List.filter q (List.filter p l) = List.filter (fun x => p x && q x) l.
Proof.
  induction l as [|x l IH]; cbn; [reflexivity |].
  destruct (p x); cbn; [destruct (q x) |]; now rewrite IH.
Qed.

Lemma filter_sublist_of {A} (p : A -> bool) l : List.filter p l `sublist_of` l.
Proof.
  induction l as [|x l IH]; cbn; [constructor |].
  destruct (p x); now constructor.
Qed.

(** X19.  [applyFilters] only drops tasks: its result is the collection
    with some tasks left out, in the order of the collection.  A filter
    without criteria drops none; filtering by two filters one after the other
    gives the same in either order; and a filter with several criteria gives
    what its criteria give when applied one after the other. *)
Theorem applyFilters_algebra (ts : list Task.t) :
  (forall filters, TaskService.applyFilters ts filters `sublist_of` ts)
  /\ TaskService.applyFilters ts (TaskFilterOptions.mk None None None None) = ts
  /\ (forall f g,
        TaskService.applyFilters (TaskService.applyFilters ts f) g =
        TaskService.applyFilters (TaskService.applyFilters ts g) f)
  /\ (forall filters,
        TaskService.applyFilters ts filters =
        TaskService.applyFilters
          (TaskService.applyFilters
             (TaskService.applyFilters
                (TaskService.applyFilters ts
                   (statusOnly (TaskFilterOptions.status filters)))
                (hasDescriptionOnly (TaskFilterOptions.hasDescription filters)))
             (dueBeforeOnly (TaskFilterOptions.dueBefore filters)))
          (dueAfterOnly (TaskFilterOptions.dueAfter filters))).
Proof.
  unfold TaskService.applyFilters. split; [| split; [| split]].
  - intros f. apply filter_sublist_of.
  - induction ts as [|t ts IH]; cbn; [reflexivity |]. now rewrite IH.
  - intros f g. rewrite !filter_filter. apply List.filter_ext.
    intros t. apply andb_comm.
  - intros f. rewrite !filter_filter. apply List.filter_ext.
    intros t. rewrite (passesFilters_split f t). now rewrite <- !andb_assoc.
Qed.

(** ** Ids *)

Lemma afterInitialize_savedWith ts w :
  isLoaded (service w) = true -> afterInitialize (savedWith ts w) = savedWith ts w.
Proof. intros H. now apply afterInitialize_loaded. Qed.

Lemma canSave_savedWith ts w : canSave (disk (savedWith ts w)) = true.
Proof. apply canSave_diskAfterSave. Qed.

(** X20.  The created task is found: when the generated id is not yet in
    the collection, [getTaskById] with the id of the task [createTask]
    returned succeeds with that task, and [deleteTask] with that id brings the
    collection back to what it was before the creation.  The file then holds
    the serialization of that collection; so it is back to what it held
    before exactly when it held that serialization before, which it does not
    after a failed save or when it was not a JSON array. *)
Theorem created_task_is_found_and_deleted (input : CreateTaskInput.t) (w : World) :
  trim (CreateTaskInput.title input) <> [] ->
  canSave (disk w) = true ->
  generatedId w ∉ Task.id <$> tasks (service (afterInitialize w)) ->
  exists task w',
    TaskService.createTask input w =
      (Normal (ApiResponse.mk true (js "Successfully create task") (Some task) None), w')
    /\ Task.id task = generatedId w
    /\ TaskService.getTaskById (Task.id task) w' =
         (Normal (ApiResponse.mk true (js "Successfully got the task") (Some task) None), w')
    /\ exists message w'',
         TaskService.deleteTask (Task.id task) w' =
           (Normal (ApiResponse.mk true message (Some true) None), w'')
         /\ tasks (service w'') = tasks (service (afterInitialize w))
         /\ tasksFile (disk w'') =
              Some (JSON_stringify (tasks (service (afterInitialize w))))
         /\ (tasksFile (disk w'') = tasksFile (disk (afterInitialize w))
             <-> tasksFile (disk (afterInitialize w)) =
                   Some (JSON_stringify (tasks (service (afterInitialize w))))).
Proof.
  intros Ht Hw Hfresh. rewrite createTask_closed. cbv zeta.
  rewrite (truthy_nonempty _ Ht), afterInitialize_canSave, Hw.
  rewrite newTaskFor_afterInitialize.
  set (w1 := afterInitialize w) in *. set (ts := tasks (service w1)) in *.
  set (task := newTaskFor input w).
  assert (Hl : isLoaded (service w1) = true) by apply afterInitialize_isLoaded.
  assert (Habs : List.Forall (fun y => TaskService.hasId (Task.id task) y = false) ts).
  { apply findIndex_absent. now apply hasId_absent. }
  assert (Hid : TaskService.hasId (Task.id task) task = true) by now apply hasId_eq.
  exists task, (savedWith (ts ++ [task]) w1). split; [reflexivity |].
  split; [reflexivity |]. split.
  - rewrite getTaskById_closed, afterInitialize_savedWith, tasks_savedWith by assumption.
    now rewrite find_first.
  - rewrite deleteTask_closed. cbv zeta.
    rewrite afterInitialize_savedWith, tasks_savedWith by assumption.
    rewrite findIndex_first, index_not_minus_one, Nat2Z.id by assumption.
    rewrite (list_lookup_middle ts [] task (length ts) eq_refl), splice1_middle.
    rewrite app_nil_r, canSave_savedWith.
    eexists _, _. split; [reflexivity |]. split; [reflexivity |].
    rewrite tasksFile_savedWith. split; [reflexivity |].
    split; intros H; now rewrite H.
Qed.

Lemma created_task_is_found_and_deleted_witness :
  exists task w',
    TaskService.createTask (CreateTaskInput.mk (js "Buy milk") None None)
      (loadedWorld [taskA] true) =
      (Normal (ApiResponse.mk true (js "Successfully create task") (Some task) None), w')
    /\ Task.id task = js "task_ly27r43f_4fz"
    /\ exists message w'',
         TaskService.deleteTask (Task.id task) w' =
           (Normal (ApiResponse.mk true message (Some true) None), w'')
         /\ tasks (service w'') = [taskA]
         /\ tasksFile (disk w'') = tasksFile (disk (loadedWorld [taskA] true)).
Proof.
  destruct (created_task_is_found_and_deleted
              (CreateTaskInput.mk (js "Buy milk") None None) (loadedWorld [taskA] true))
    as (task & w' & Hr & Hid & _ & message & w'' & Hd & Hts & _ & Hfile).
  - vm_compute. discriminate.
  - reflexivity.
  - rewrite afterInitialize_loaded by reflexivity.
    apply (bool_decide_unpack _). vm_compute. exact I.
  - exists task, w'. split; [exact Hr |]. split; [exact Hid |].
    exists message, w''. split; [exact Hd |].
    rewrite afterInitialize_loaded in Hts, Hfile by reflexivity.
    split; [exact Hts |]. apply Hfile. reflexivity.
Defined.

(** X21.  [createTask] does not compare the id it generates with the ids in
    the collection: a second call that reads the same clock value and the same
    random text succeeds as well, and the collection then ends with two tasks
    that carry the same id. *)
Theorem createTask_does_not_check_ids (input1 input2 : CreateTaskInput.t) (w : World) :
  trim (CreateTaskInput.title input1) <> [] ->
  trim (CreateTaskInput.title input2) <> [] ->
  canSave (disk w) = true ->
  exists task1 task2 w' w'',
    TaskService.createTask input1 w =
      (Normal (ApiResponse.mk true (js "Successfully create task") (Some task1) None), w')
    /\ clock w' = clock w /\ randomText w' = randomText w
    /\ TaskService.createTask input2 w' =
         (Normal (ApiResponse.mk true (js "Successfully create task") (Some task2) None), w'')
    /\ tasks (service w'') = tasks (service (afterInitialize w)) ++ [task1; task2]
    /\ Task.id task1 = Task.id task2.
Proof.
  intros Ht1 Ht2 Hw. rewrite createTask_closed. cbv zeta.
  rewrite (truthy_nonempty _ Ht1), afterInitialize_canSave, Hw.
  rewrite newTaskFor_afterInitialize.
  set (w1 := afterInitialize w) in *. set (ts := tasks (service w1)) in *.
  assert (Hl : isLoaded (service w1) = true) by apply afterInitialize_isLoaded.
  assert (Hc : clock w1 = clock w) by apply afterInitialize_clock.
  assert (Hr : randomText w1 = randomText w) by apply afterInitialize_randomText.
  eexists _, _, _, _. split; [reflexivity |].
  split; [exact Hc |]. split; [exact Hr |].
  rewrite createTask_closed. cbv zeta.
  rewrite (truthy_nonempty _ Ht2), afterInitialize_savedWith by assumption.
  rewrite canSave_savedWith.
  split; [reflexivity |]. split.
  - rewrite tasks_savedWith. cbn [tasks service savedWith with_disk withTasks with_service].
    now rewrite <- app_assoc.
  - unfold newTaskFor, generatedId. cbn [Task.id].
    cbn [clock randomText savedWith with_disk withTasks with_service].
    now rewrite Hc, Hr.
Qed.

Lemma createTask_does_not_check_ids_witness :
  exists task1 task2 w' w'',
    TaskService.createTask (CreateTaskInput.mk (js "Buy milk") None None)
      (loadedWorld [] true) =
      (Normal (ApiResponse.mk true (js "Successfully create task") (Some task1) None), w')
    /\ TaskService.createTask (CreateTaskInput.mk (js "Buy bread") None None) w' =
         (Normal (ApiResponse.mk true (js "Successfully create task") (Some task2) None), w'')
    /\ tasks (service w'') = [task1; task2]
    /\ Task.id task1 = Task.id task2.
Proof.
  destruct (createTask_does_not_check_ids
              (CreateTaskInput.mk (js "Buy milk") None None)
              (CreateTaskInput.mk (js "Buy bread") None None) (loadedWorld [] true))
    as (t1 & t2 & w' & w'' & H1 & _ & _ & H2 & Hts & Hid).
  - vm_compute. discriminate.
  - vm_compute. discriminate.
  - reflexivity.
  - exists t1, t2, w', w''. repeat split; assumption.
Defined.

(** X22.  [updateTask] never changes who the tasks are: whatever the outcome,
    the collection afterwards has the same ids and the same creation dates, in
    the same order, as the collection initialization left. *)
Theorem updateTask_keeps_identity (id : JsString) (updateData : UpdateTaskInput.t) (w : World) :
  let ts := tasks (service (afterInitialize w)) in
  let ts' := tasks (service (snd (TaskService.updateTask id updateData w))) in
  Task.id <$> ts' = Task.id <$> ts
  /\ Task.createdAt <$> ts' = Task.createdAt <$> ts
  /\ length ts' = length ts.
Proof.
  cbv zeta. rewrite updateTask_closed. cbv zeta.
  destruct (_ =? -1); [now repeat split |].
  destruct (match read (UpdateTaskInput.title updateData) with
            | Some t => negb (truthy (trim t))
            | None => false
            end); [now repeat split |].
  destruct (_ !! _) as [cur|] eqn:E; [| now repeat split].
  assert (H : forall A (f : Task.t -> A),
             f (TaskService.mergeUpdate cur updateData (DateAt (clock (afterInitialize w))))
             = f cur ->
             f <$> <[Z.to_nat (findIndex (TaskService.hasId id)
                                 (tasks (service (afterInitialize w)))) :=
                       TaskService.mergeUpdate cur updateData
                         (DateAt (clock (afterInitialize w)))]>
                     (tasks (service (afterInitialize w)))
             = f <$> tasks (service (afterInitialize w))).
  { intros A f Hf. rewrite list_fmap_insert, Hf. apply list_insert_id.
    now rewrite list_lookup_fmap, E. }
  destruct (canSave _); cbn [snd];
    change (tasks (service (savedWith ?l ?v))) with l;
    change (tasks (service (withTasks ?l ?v))) with l;
    (split; [now apply H | split; [now apply H | apply length_insert]]).
Qed.

Lemma fmap_splice1 {A B} (f : A -> B) i (l : list A) :
  f <$> splice1 i l = delete (Z.to_nat i) (f <$> l).
Proof.
  unfold splice1. now rewrite delete_take_drop, fmap_app, fmap_take, fmap_drop.
Qed.

(** X23.  Unique ids stay unique: when no two tasks of the collection share
    an id, the same holds after [updateTask] and after [deleteTask], whatever
    their outcome, and after [createTask] when the id it generates is not in
    the collection. *)
Theorem unique_ids_preserved (w : World) :
  NoDup (Task.id <$> tasks (service (afterInitialize w))) ->
  (forall id updateData,
     NoDup (Task.id <$> tasks (service (snd (TaskService.updateTask id updateData w)))))
  /\ (forall id,
        NoDup (Task.id <$> tasks (service (snd (TaskService.deleteTask id w)))))
  /\ (forall input,
        generatedId w ∉ Task.id <$> tasks (service (afterInitialize w)) ->
        NoDup (Task.id <$> tasks (service (snd (TaskService.createTask input w))))).
Proof.
  intros Hnd. split; [| split].
  - intros id u. rewrite updateTask_closed. cbv zeta.
    destruct (_ =? -1); [assumption |].
    destruct (match read (UpdateTaskInput.title u) with
              | Some t => negb (truthy (trim t))
              | None => false
              end); [assumption |].
    destruct (_ !! _) as [cur|] eqn:E; [| assumption].
    assert (Hsame :
      Task.id <$> <[Z.to_nat (findIndex (TaskService.hasId id)
                                (tasks (service (afterInitialize w)))) :=
                      TaskService.mergeUpdate cur u (DateAt (clock (afterInitialize w)))]>
                    (tasks (service (afterInitialize w)))
      = Task.id <$> tasks (service (afterInitialize w))).
    { rewrite list_fmap_insert. apply list_insert_id. now rewrite list_lookup_fmap, E. }
    destruct (canSave _); cbn [snd];
      change (tasks (service (savedWith ?l ?v))) with l;
      change (tasks (service (withTasks ?l ?v))) with l;
      now rewrite Hsame.
  - intros id. rewrite deleteTask_closed. cbv zeta.
    destruct (_ =? -1); [assumption |].
    destruct (canSave _); cbn [snd];
      change (tasks (service (savedWith ?l ?v))) with l;
      change (tasks (service (withTasks ?l ?v))) with l;
      rewrite fmap_splice1; eapply sublist_NoDup; try eassumption; apply sublist_delete.
  - intros input Hfresh. rewrite createTask_closed. cbv zeta.
    rewrite newTaskFor_afterInitialize.
    destruct (truthy _); [| assumption].
    destruct (canSave _); cbn [snd];
      change (tasks (service (savedWith ?l ?v))) with l;
      change (tasks (service (withTasks ?l ?v))) with l;
      rewrite fmap_app; apply NoDup_app; (split; [assumption |]);
      (split; [| apply NoDup_singleton]);
      intros x Hx Hx'; cbn in Hx'; apply list_elem_of_singleton in Hx'; subst x;
      now apply Hfresh.
Qed.

Lemma unique_ids_preserved_witness :
  NoDup (Task.id <$> tasks (service (snd (TaskService.deleteTask (js "a")
                                            (loadedWorld [taskA; taskB] true))))).
Proof.
  apply (unique_ids_preserved (loadedWorld [taskA; taskB] true)).
  rewrite afterInitialize_loaded by reflexivity.
  apply (bool_decide_unpack _). vm_compute. exact I.
Defined.

(** ** Through the file: invalid dates *)

Lemma hydrateTask_stringifyTask_throughFile engine (t : Task.t) :
  jsDates t -> hydrateTask engine (stringifyTask t) = throughFile t.
Proof.
  destruct t as [id title desc st ca ua due].
  unfold jsDates, hydrateTask, stringifyTask, throughFile.
  cbn [StoredTask.id StoredTask.title StoredTask.description StoredTask.status
       StoredTask.createdAt StoredTask.updatedAt StoredTask.dueDate
       Task.id Task.title Task.description Task.status Task.createdAt
       Task.updatedAt Task.dueDate].
  intros (Hc & Hu & Hd).
  assert (Hdate : forall d, jsDate d -> new_Date_of engine (Date_toJSON d) = epochIfInvalid d).
  { intros [t|]; cbn [jsDate Date_toJSON new_Date_of epochIfInvalid]; [| reflexivity].
    apply Date_parse_toISOString. }
  rewrite (Hdate ca Hc), (Hdate ua Hu). f_equal.
  destruct due as [[d|]|]; cbn [Date_toJSON JsonDate_truthy new_Date_of]; try reflexivity.
  now rewrite toISOString_truthy, (Date_parse_toISOString engine d Hd).
Qed.

Lemma validDates_throughFile (t : Task.t) : jsDates t -> validDates (throughFile t).
Proof.
  destruct t as [id title desc st ca ua due]. unfold jsDates, validDates, throughFile.
  cbn [Task.createdAt Task.updatedAt Task.dueDate].
  assert (H0 : validTime 0) by (unfold validTime, maxTimeValue; lia).
  intros (Hc & Hu & Hd). repeat split.
  - destruct ca; cbn in *; eauto.
  - destruct ua; cbn in *; eauto.
  - destruct due as [[d|]|]; cbn in *; eauto.
Qed.

(** X24.  What one trip through the file does to a collection, and that a
    second trip does nothing more: after a [saveTasks] that succeeded, on a
    file that can be read, [loadTasks] returns the tasks with every invalid
    [createdAt] and [updatedAt] replaced by the epoch and every invalid
    [dueDate] removed; saving and loading that result returns it unchanged. *)
Theorem save_load_normalizes (ts : list Task.t) (w : World) :
  List.Forall jsDates ts ->
  canSave (disk w) = true ->
  readable (disk w) = true ->
  fst (loadTasks (snd (saveTasks ts w))) = Normal (throughFile <$> ts)
  /\ fst (loadTasks (snd (saveTasks (throughFile <$> ts) w)))
     = Normal (throughFile <$> ts).
Proof.
  intros Hd Hw Hr.
  assert (Hsave : forall l, snd (saveTasks l w) = with_disk (diskAfterSave l (disk w)) w).
  { intros l. rewrite saveTasks_spec, Hw. reflexivity. }
  rewrite !Hsave, !loadTasks_after_save by assumption. split; f_equal.
  - induction Hd as [|t l Ht _ IH]; cbn [List.map fmap list_fmap]; [reflexivity |].
    rewrite hydrateTask_stringifyTask_throughFile by assumption. f_equal. exact IH.
  - apply hydrate_stringify_all.
    induction Hd as [|t l Ht _ IH]; cbn; constructor;
      [now apply validDates_throughFile | exact IH].
Qed.

Lemma save_load_normalizes_witness :
  fst (loadTasks (snd (saveTasks
         [Task.mk (js "d") (js "Call back") None (Some TODO) InvalidDate (DateAt jan2024)
            (Some InvalidDate)]
         (loadedWorld [] true))))
  = Normal [Task.mk (js "d") (js "Call back") None (Some TODO) (DateAt 0) (DateAt jan2024) None].
Proof.
  apply (proj1 (save_load_normalizes
                  [Task.mk (js "d") (js "Call back") None (Some TODO) InvalidDate (DateAt jan2024)
                     (Some InvalidDate)]
                  (loadedWorld [] true)
                  ltac:(repeat constructor; vm_compute; discriminate)
                  eq_refl eq_refl)).
Defined.

(** ** Task.ts *)

Lemma TaskStatus_value_inj a b : TaskStatus_value a = TaskStatus_value b -> a = b.
Proof. destruct a, b; cbn; intros H; try reflexivity; discriminate H. Qed.

(** X25.  [isValidTaskStatus] accepts exactly the three strings [todo],
    [in_progress] and [completed], each of which is the value of one status
    only. *)
Theorem isValidTaskStatus_exact (s : JsString) :
  (isValidTaskStatus s = true <-> exists status, TaskStatus_value status = s)
  /\ (isValidTaskStatus s = true <->
      s = js "todo" \/ s = js "in_progress" \/ s = js "completed")
  /\ forall a b, TaskStatus_value a = s -> TaskStatus_value b = s -> a = b.
Proof.
  unfold isValidTaskStatus, TaskStatus_values.
  split; [| split].
  - rewrite bool_decide_eq_true, list_elem_of_fmap. split.
    + intros (st & -> & _). now exists st.
    + intros (st & <-). exists st. split; [reflexivity |].
      destruct st; repeat constructor.
  - rewrite bool_decide_eq_true. cbn [fmap list_fmap TaskStatus_value].
    rewrite !elem_of_cons, elem_of_nil. tauto.
  - intros a b <- Hb. symmetry. now apply TaskStatus_value_inj.
Qed.

Lemma isValidTaskStatus_exact_witness :
  isValidTaskStatus (js "in_progress") = true /\ isValidTaskStatus (js "TODO") = false.
Proof.
  split.
  - apply (proj1 (isValidTaskStatus_exact (js "in_progress"))). now exists IN_PROGRESS.
  - destruct (isValidTaskStatus (js "TODO")) eqn:E; [| reflexivity].
    apply (proj1 (proj2 (isValidTaskStatus_exact (js "TODO")))) in E.
    destruct E as [E | [E | E]]; discriminate E.
Defined.

(** ** A store that does not take the save *)

Lemma afterInitialize_disk_refusing w :
  canSave (disk w) = false -> disk (afterInitialize w) = disk w.
Proof.
  intros H. rewrite afterInitialize_closed.
  destruct (isLoaded (service w)); [reflexivity |].
  destruct (tasksFile (disk w)) eqn:E; [reflexivity |].
  rewrite (tasksFile_None_canSave _ E) in H. now rewrite H.
Qed.

(** X26.  Where the store does not take a save (the tasks file is there and
    may not be written, or it is not there and the directory does not let the
    process make it) nothing on disk changes: not by initialization, and not by
    [createTask], [updateTask] and [deleteTask], which then never answer with a
    success.  A directory that cannot be written is not enough for that: over
    a tasks file that may be written [createTask] saves and succeeds,
    whatever the directory allows. *)
Theorem refused_save_leaves_disk (w : World) :
  (canSave (disk w) = false ->
   disk (afterInitialize w) = disk w
   /\ (forall input,
         disk (snd (TaskService.createTask input w)) = disk w
         /\ exists r w',
              TaskService.createTask input w = (Normal r, w')
              /\ ApiResponse.success r = false)
   /\ (forall id updateData,
         disk (snd (TaskService.updateTask id updateData w)) = disk w
         /\ exists r w',
              TaskService.updateTask id updateData w = (Normal r, w')
              /\ ApiResponse.success r = false)
   /\ (forall id,
         disk (snd (TaskService.deleteTask id w)) = disk w
         /\ exists r w',
              TaskService.deleteTask id w = (Normal r, w')
              /\ ApiResponse.success r = false))
  /\ (forall f input,
        tasksEntry (disk w) = Some f -> mayWrite f = true ->
        trim (CreateTaskInput.title input) <> [] ->
        exists task w',
          TaskService.createTask input w =
            (Normal (ApiResponse.mk true (js "Successfully create task") (Some task) None),
             w')
          /\ tasksFile (disk w') = Some (JSON_stringify (tasks (service w')))
          /\ writable (disk w') = writable (disk w)).
Proof.
  split.
  - intros H. pose proof (afterInitialize_disk_refusing w H) as Hd.
    split; [assumption |]. split; [| split].
    + intros input. rewrite createTask_closed. cbv zeta.
      rewrite afterInitialize_canSave, H.
      destruct (truthy _); cbn [snd]; (split; [exact Hd |]); eexists _, _;
        split; reflexivity.
    + intros id u. rewrite updateTask_closed. cbv zeta.
      rewrite afterInitialize_canSave, H.
      destruct (_ =? -1); [| destruct (match read (UpdateTaskInput.title u) with
                                       | Some t => negb (truthy (trim t))
                                       | None => false
                                       end); [| destruct (_ !! _)]];
        cbn [snd]; (split; [exact Hd |]); eexists _, _; split; reflexivity.
    + intros id. rewrite deleteTask_closed. cbv zeta.
      rewrite afterInitialize_canSave, H.
      destruct (_ =? -1); cbn [snd]; (split; [exact Hd |]); eexists _, _;
        split; reflexivity.
  - intros f input Hf Hm Ht.
    assert (Hc : canSave (disk w) = true) by (unfold canSave; now rewrite Hf).
    assert (Hfile : is_Some (tasksFile (disk w))).
    { unfold tasksFile. rewrite Hf. now eexists. }
    assert (Hdisk : disk (afterInitialize w) = disk w).
    { rewrite afterInitialize_closed. destruct (isLoaded (service w)); [reflexivity |].
      destruct Hfile as [c ->]. reflexivity. }
    rewrite createTask_closed. cbv zeta.
    rewrite (truthy_nonempty _ Ht), afterInitialize_canSave, Hc.
    eexists _, _. split; [reflexivity |].
    split; [apply tasksFile_savedWith |].
    cbn [savedWith disk with_disk diskAfterSave writable]. now rewrite Hdisk.
Qed.

Lemma refused_save_leaves_disk_witness :
  disk (snd (TaskService.createTask (CreateTaskInput.mk (js "Buy milk") None None)
               (loadedWorld [taskA] false)))
  = disk (loadedWorld [taskA] false)
  /\ exists task w',
       TaskService.createTask (CreateTaskInput.mk (js "Buy milk") None None)
         (lockedDirectoryWorld [taskA]) =
         (Normal (ApiResponse.mk true (js "Successfully create task") (Some task) None), w')
       /\ tasksFile (disk w') = Some (JSON_stringify (tasks (service w')))
       /\ writable (disk w') = false.
Proof.
  destruct (refused_save_leaves_disk (loadedWorld [taskA] false)) as (H & _).
  destruct (refused_save_leaves_disk (lockedDirectoryWorld [taskA])) as (_ & H').
  split.
  - destruct (H eq_refl) as (_ & Hc & _). apply Hc.
  - destruct (H' (mkFile (JSON_stringify [taskA]) true)
                (CreateTaskInput.mk (js "Buy milk") None None) eq_refl eq_refl)
      as (task & w' & Hr & Hf & Hw).
    + vm_compute. discriminate.
    + exists task, w'. repeat split; assumption.
Defined.
